(** * Meeting activity: reconciliation of lifecycle events and room fan-out

    A shallow embedding of [src/modules/meetingActivity.js]: the
    [MeetingActivity] collection, [createActivity], [updateActivity], the
    socket handlers registered by [setupSocketHandlers] ([meeting-started],
    [meeting-completed], [join-user-room], [handleDisconnect]) and the two
    HTTP routes.

    The handlers are asynchronous JavaScript that talks to a document store
    through an ODM and to a socket.io server.  They are embedded as
    computations in a small state-and-exception monad over a [world] that
    holds the collection, the users that [populate] reads, the rooms of the
    socket server, the packets handed to sockets, the console and the clock.
    One handler runs at a time.

    What the embedding fixes:
    - a string is the sequence of the bytes of its UTF-8 form; where the code
      counts UTF-16 units ([substring]) or looks for white space ([parseInt])
      the bytes are read as UTF-8;
    - [userId] has the schema type ObjectId: a string is cast when a document
      is built, a filter is run or an update is sent, and the cast accepts
      the twenty-four hexadecimal digits of an ObjectId and nothing else; a
      failed cast stops the operation before anything reaches the store;
    - the other values of an event have the types of the schema: names and
      meeting ids are strings, dates are milliseconds, a duration is a whole
      number, an entry of [participants] has an ObjectId as [userId];
      [undefined] is [None]; the [_id] that the ODM gives to each entry of
      [participants] is left out;
    - the collection is a list in insertion order; [findOne] returns the
      first match, [findByIdAndUpdate] rewrites the first document with the
      id; a write that passes the validation of the schema reaches the
      collection (a lost connection is not modelled);
    - a key of [updateData] whose value is [undefined] is not sent with the
      update, so the stored value stays;
    - [populate] turns [userId] into the user with that [_id], or into null
      when there is none; the model 'User' is registered by the host;
    - of a [console] call the message is kept, an object argument is not;
    - [socket.to(room).emit] reaches the sockets of the room other than the
      emitting one, [socket.join] adds a room to those of the socket, and a
      socket that closes has left all its rooms when its 'disconnect'
      listeners run;
    - numbers are the doubles of JavaScript as far as the routes meet them:
      NaN, the two infinities and the whole doubles, the two zeros taken as
      one.

    The routes read the collection through
    [find(...).sort(...).skip(...).limit(...)] and [countDocuments]; the
    order of documents with equal [createdAt] is the one a merge sort of the
    collection gives.  Of the client function [addActivityItem] the title of
    the item is embedded. *)

From stdpp Require Import base option list gmap sets strings sorting.
From Stdlib Require Import ZArith NArith Ascii.

#[local] Open Scope string_scope.

(** ** ObjectIds *)

(** An ObjectId is twelve bytes; it is kept as the number that its
    twenty-four hexadecimal digits write. *)
Definition ObjectId := N.

(** The value of a hexadecimal digit, in either case. *)
Definition hex_digit (c : ascii) : option N :=
  let n := nat_of_ascii c in
  if (48 <=? n)%nat && (n <=? 57)%nat then Some (N.of_nat (n - 48))
  else if (97 <=? n)%nat && (n <=? 102)%nat then Some (N.of_nat (n - 87))
  else if (65 <=? n)%nat && (n <=? 70)%nat then Some (N.of_nat (n - 55))
  else None.

(** The number that a string of hexadecimal digits writes after [acc]. *)
Fixpoint hex_value (acc : N) (s : string) : option N :=
  match s with
  | EmptyString => Some acc
  | String c s' =>
      match hex_digit c with
      | Some v => hex_value (16 * acc + v)%N s'
      | None => None
      end
  end.

(** The cast of a string to the schema type ObjectId ([new ObjectId(s)]):
    twenty-four hexadecimal digits give the id, any other string is refused.
    The case of the digits does not matter. *)
Definition castObjectId (s : string) : option ObjectId :=
  if (String.length s =? 24)%nat then hex_value 0%N s else None.

(** ** The schema (lines 4-28) *)

(** [type]: enum ['created','joined','left','completed','scheduled',
    'cancelled','missed']. *)
Inductive activity_type :=
  | ty_created | ty_joined | ty_left | ty_completed
  | ty_scheduled | ty_cancelled | ty_missed.

(** [status]: enum ['completed','scheduled','missed','cancelled',
    'in-progress']. *)
Inductive activity_status :=
  | st_completed | st_scheduled | st_missed | st_cancelled | st_in_progress.

#[global] Instance activity_type_eq_dec : EqDecision activity_type.
Proof. solve_decision. Defined.

#[global] Instance activity_status_eq_dec : EqDecision activity_status.
Proof. solve_decision. Defined.

(** One entry of [participants].  Dates are milliseconds since the epoch. *)
Record participant := {
  part_userId : option ObjectId;
  part_name : option string;
  part_joinedAt : option Z;
  part_leftAt : option Z
}.

(** A stored document.  [_id] is the ObjectId of the document, kept as the
    rank of its generation. *)
Record MeetingActivity := {
  _id : nat;
  userId : ObjectId;
  meetingId : string;
  meetingName : string;
  type : activity_type;
  status : activity_status;
  duration : option Z;
  participants : list participant;
  startTime : option Z;
  endTime : option Z;
  createdAt : Z
}.

(** A document of the model 'User', as [populate] selects it:
    ['firstName lastName profilePicture'] and the [_id]. *)
Record User := {
  user_id : ObjectId;
  firstName : option string;
  lastName : option string;
  profilePicture : option string
}.

(** A document whose path [userId] has been populated: [activity.userId] is
    then the user, or null when no user has that [_id]. *)
Record populated := {
  pop_doc : MeetingActivity;
  pop_userId : option User
}.

(** A plain JavaScript object over the paths of the schema: the argument of
    [new MeetingActivity], [additionalData] and [updateData].  [None] is a
    key that is absent or [undefined]; [userId] is the string that the caller
    passes, not yet cast. *)
Record fields := {
  f_userId : option string;
  f_meetingId : option string;
  f_meetingName : option string;
  f_type : option activity_type;
  f_status : option activity_status;
  f_duration : option Z;
  f_participants : option (list participant);
  f_startTime : option Z;
  f_endTime : option Z;
  f_createdAt : option Z
}.

(** [{}] *)
Definition empty_fields : fields :=
  {| f_userId := None; f_meetingId := None; f_meetingName := None;
     f_type := None; f_status := None; f_duration := None;
     f_participants := None; f_startTime := None; f_endTime := None;
     f_createdAt := None |}.

(** One key of [{...a, ...b}]. *)
Definition override {A} (a b : option A) : option A :=
  match b with Some v => Some v | None => a end.

(** [{...a, ...b}] *)
Definition spread (a b : fields) : fields :=
  {| f_userId := override (f_userId a) (f_userId b);
     f_meetingId := override (f_meetingId a) (f_meetingId b);
     f_meetingName := override (f_meetingName a) (f_meetingName b);
     f_type := override (f_type a) (f_type b);
     f_status := override (f_status a) (f_status b);
     f_duration := override (f_duration a) (f_duration b);
     f_participants := override (f_participants a) (f_participants b);
     f_startTime := override (f_startTime a) (f_startTime b);
     f_endTime := override (f_endTime a) (f_endTime b);
     f_createdAt := override (f_createdAt a) (f_createdAt b) |}.

(** The filters that the module builds: [{ userId, meetingId, type }] and
    [{ userId }].  [userId] is the string of the caller. *)
Record query_filter := {
  q_userId : option string;
  q_meetingId : option string;
  q_type : option activity_type
}.

(** A filter once the ODM has cast it to the schema. *)
Record conditions := {
  c_userId : option ObjectId;
  c_meetingId : option string;
  c_type : option activity_type
}.

(** ** JavaScript values of the event data *)

(** The [data] of a [meeting-started] or [meeting-completed] event, as the
    handlers destructure it.  A supplied date is a Date or its ISO string,
    both truthy; a supplied string may be empty, which is falsy. *)
Record data := {
  data_meetingId : option string;
  data_meetingName : option string;
  data_userId : option string;
  data_duration : option Z;
  data_participants : option (list participant);
  data_startTime : option Z;
  data_endTime : option Z
}.

(** The argument of [join-user-room], which the handler only turns into a
    string: nothing, a string, or any other value, given by what the
    conversion to a string makes of it.  [null] gives "null", a number its
    digits, a plain object "[object Object]", an array its elements joined by
    commas; an object with an own property [toString] (which, coming off the
    wire, is no function) cannot be converted, which is [None]. *)
Inductive js_value :=
  | js_undefined
  | js_string (s : string)
  | js_other (to_string : option string).

(** Truthiness of a string-or-undefined. *)
Definition truthy (v : option string) : bool :=
  match v with
  | Some s => negb (String.eqb s "")
  | None => false
  end.

(** [v || d] for a string-or-undefined [v]. *)
Definition or_else (v : option string) (d : string) : string :=
  match v with
  | Some s => if truthy v then s else d
  | None => d
  end.

(** [`${v}`] for a string-or-undefined [v]. *)
Definition template (v : option string) : string :=
  match v with Some s => s | None => "undefined" end.

(** ** The world *)

Inductive exn :=
  | ValidationError (path : string)
  | CastError (path : string)
  | TypeError (what : string).

Inductive outcome (A : Type) :=
  | Return (a : A)
  | Throw (e : exn).
Arguments Return {A} a.
Arguments Throw {A} e.

Inductive console_line :=
  | console_log (message : string)
  | console_error (message : string).

(** Operations sent to the store, in order. *)
Inductive db_op :=
  | op_save (id : nat)
  | op_populate (id : nat)
  | op_findOne (q : query_filter)
  | op_findByIdAndUpdate (id : nat) (updateData : fields).

(** The [activity] object of an ['activity-updated'] packet and of the
    answers of the routes.  [meeting-started] sends no [duration],
    [participants] and [endTime] keys.  [userId] is the populated path. *)
Record activity_view := {
  v_id : nat;
  v_meetingId : string;
  v_meetingName : string;
  v_type : activity_type;
  v_status : activity_status;
  v_duration : option Z;
  v_participants : option (list participant);
  v_startTime : option Z;
  v_endTime : option Z;
  v_createdAt : Z;
  v_userId : option User
}.

Record packet := {
  pk_event : string;
  pk_type : string;
  pk_activity : activity_view
}.

Record world := {
  collection : list MeetingActivity;   (* documents, in natural order *)
  users : list User;                   (* the collection of the model 'User' *)
  next_oid : nat;                      (* ObjectIds generated so far *)
  queries : list db_op;
  rooms : gmap string (gset string);   (* room name -> ids of the sockets in it *)
  emitted : list (string * packet);    (* (receiving socket id, packet) *)
  console : list console_line;
  clock : nat -> Z;                    (* the successive readings of the clock *)
  ticks : nat                          (* readings taken so far *)
}.

Definition M (A : Type) : Type := world -> outcome A * world.

Definition ret {A} (a : A) : M A := fun w => (Return a, w).

Definition throw {A} (e : exn) : M A := fun w => (Throw e, w).

Definition bind {A B} (c : M A) (k : A -> M B) : M B :=
  fun w =>
    match c w with
    | (Return a, w') => k a w'
    | (Throw e, w') => (Throw e, w')
    end.

(** [try { body } catch (error) { handler }] *)
Definition try_catch {A} (body : M A) (handler : exn -> M A) : M A :=
  fun w =>
    match body w with
    | (Return a, w') => (Return a, w')
    | (Throw e, w') => handler e w'
    end.

Declare Scope js_scope.
Delimit Scope js_scope with js.
Notation "x <- c ;; k" := (bind c (fun x => k))
  (at level 20, c at level 99, k at level 200, only parsing) : js_scope.
Notation "c ;; k" := (bind c (fun _ => k))
  (at level 100, k at level 200, only parsing, right associativity) : js_scope.
#[local] Open Scope js_scope.

Definition set_collection (c : list MeetingActivity) (w : world) : world :=
  {| collection := c; users := users w; next_oid := next_oid w;
     queries := queries w; rooms := rooms w; emitted := emitted w;
     console := console w; clock := clock w; ticks := ticks w |}.

Definition set_next_oid (n : nat) (w : world) : world :=
  {| collection := collection w; users := users w; next_oid := n;
     queries := queries w; rooms := rooms w; emitted := emitted w;
     console := console w; clock := clock w; ticks := ticks w |}.

Definition set_queries (q : list db_op) (w : world) : world :=
  {| collection := collection w; users := users w; next_oid := next_oid w;
     queries := q; rooms := rooms w; emitted := emitted w;
     console := console w; clock := clock w; ticks := ticks w |}.

Definition set_rooms (r : gmap string (gset string)) (w : world) : world :=
  {| collection := collection w; users := users w; next_oid := next_oid w;
     queries := queries w; rooms := r; emitted := emitted w;
     console := console w; clock := clock w; ticks := ticks w |}.

Definition set_emitted (e : list (string * packet)) (w : world) : world :=
  {| collection := collection w; users := users w; next_oid := next_oid w;
     queries := queries w; rooms := rooms w; emitted := e;
     console := console w; clock := clock w; ticks := ticks w |}.

Definition set_console (c : list console_line) (w : world) : world :=
  {| collection := collection w; users := users w; next_oid := next_oid w;
     queries := queries w; rooms := rooms w; emitted := emitted w;
     console := c; clock := clock w; ticks := ticks w |}.

Definition set_ticks (t : nat) (w : world) : world :=
  {| collection := collection w; users := users w; next_oid := next_oid w;
     queries := queries w; rooms := rooms w; emitted := emitted w;
     console := console w; clock := clock w; ticks := t |}.

(** The reading the clock gives next: "the current time". *)
Definition now (w : world) : Z := clock w (ticks w).

(** [new Date()] and [Date.now()] *)
Definition new_Date : M Z :=
  fun w => (Return (now w), set_ticks (S (ticks w)) w).

Definition console_write (l : console_line) : M unit :=
  fun w => (Return tt, set_console (console w ++ [l]) w).

Definition query (op : db_op) : M unit :=
  fun w => (Return tt, set_queries (queries w ++ [op]) w).

(** ** The model [MeetingActivity] (line 30) *)

#[global] Instance participant_eq_dec : EqDecision participant.
Proof. solve_decision. Defined.

(** A document that is built and not yet saved.  The paths that the schema
    requires may still be missing, and [userId] is still the string that was
    given; [save] checks them. *)
Record draft := {
  dr_id : nat;
  dr_userId : option string;
  dr_meetingId : option string;
  dr_meetingName : option string;
  dr_type : option activity_type;
  dr_status : activity_status;
  dr_duration : option Z;
  dr_participants : list participant;
  dr_startTime : option Z;
  dr_endTime : option Z;
  dr_createdAt : Z
}.

Definition fresh_oid : M nat :=
  fun w => (Return (next_oid w), set_next_oid (S (next_oid w)) w).

(** [new MeetingActivity(obj)]: a fresh [_id], and the defaults of the schema
    for the paths that [obj] leaves out: [status] is 'completed', [createdAt]
    is [Date.now], an array is empty. *)
Definition new_MeetingActivity (obj : fields) : M draft :=
  id <- fresh_oid ;;
  created <- match f_createdAt obj with
             | Some t => ret t
             | None => new_Date
             end ;;
  ret {| dr_id := id;
         dr_userId := f_userId obj;
         dr_meetingId := f_meetingId obj;
         dr_meetingName := f_meetingName obj;
         dr_type := f_type obj;
         dr_status := default st_completed (f_status obj);
         dr_duration := f_duration obj;
         dr_participants := default [] (f_participants obj);
         dr_startTime := f_startTime obj;
         dr_endTime := f_endTime obj;
         dr_createdAt := created |}.

(** The validation that [save] runs: [userId], [meetingId], [meetingName] and
    [type] are [required: true]; a required string must not be empty, and
    [userId] must have been cast to an ObjectId (a cast that failed when the
    document was built is reported here, as a validation error). *)
Definition validate (d : draft) : exn + MeetingActivity :=
  if negb (truthy (dr_userId d)) then inl (ValidationError "userId")
  else
    match castObjectId (template (dr_userId d)) with
    | None => inl (ValidationError "userId")
    | Some user =>
        if negb (truthy (dr_meetingId d)) then inl (ValidationError "meetingId")
        else if negb (truthy (dr_meetingName d))
        then inl (ValidationError "meetingName")
        else
          match dr_type d with
          | None => inl (ValidationError "type")
          | Some t =>
              inr {| _id := dr_id d;
                     userId := user;
                     meetingId := template (dr_meetingId d);
                     meetingName := template (dr_meetingName d);
                     type := t;
                     status := dr_status d;
                     duration := dr_duration d;
                     participants := dr_participants d;
                     startTime := dr_startTime d;
                     endTime := dr_endTime d;
                     createdAt := dr_createdAt d |}
          end
    end.

(** [activity.save()]: the document is validated, then inserted. *)
Definition save (d : draft) : M MeetingActivity :=
  match validate d with
  | inl e => throw e
  | inr a =>
      query (op_save (_id a)) ;;
      fun w => (Return a, set_collection (collection w ++ [a]) w)
  end.

(** The user that [populate] puts in the place of an id: the one with that
    [_id], or null. *)
Definition find_user (w : world) (id : ObjectId) : option User :=
  find (fun u => bool_decide (user_id u = id)) (users w).

(** A document with its path [userId] populated from the users of [w]. *)
Definition populate_doc (w : world) (a : MeetingActivity) : populated :=
  {| pop_doc := a; pop_userId := find_user w (userId a) |}.

(** [activity.populate('userId', 'firstName lastName profilePicture')] *)
Definition populate (a : MeetingActivity) : M populated :=
  query (op_populate (_id a)) ;;
  fun w => (Return (populate_doc w a), w).

(** The cast of a filter: [userId] becomes an ObjectId, or the query is
    refused with a CastError; the other keys have their type already. *)
Definition cast_filter (q : query_filter) : exn + conditions :=
  match q_userId q with
  | None =>
      inr {| c_userId := None; c_meetingId := q_meetingId q;
             c_type := q_type q |}
  | Some s =>
      match castObjectId s with
      | Some user =>
          inr {| c_userId := Some user; c_meetingId := q_meetingId q;
                 c_type := q_type q |}
      | None => inl (CastError "userId")
      end
  end.

Definition key_matches {A} `{EqDecision A} (q : option A) (v : A) : bool :=
  match q with
  | Some x => bool_decide (x = v)
  | None => true
  end.

(** A document matches a filter when it agrees with it on every key of the
    filter. *)
Definition matches (q : conditions) (a : MeetingActivity) : bool :=
  key_matches (c_userId q) (userId a)
  && key_matches (c_meetingId q) (meetingId a)
  && key_matches (c_type q) (type a).

(** [MeetingActivity.findOne(filter)]: the first matching document in natural
    order, or null; a filter that cannot be cast is not sent. *)
Definition findOne (q : query_filter) : M (option MeetingActivity) :=
  match cast_filter q with
  | inl e => throw e
  | inr c =>
      query (op_findOne q) ;;
      fun w => (Return (find (matches c) (collection w)), w)
  end.

(** The keys of [updateData] are set on the document; the other paths stay.
    [userId] is set to the ObjectId that the string is cast to. *)
Definition apply_update (u : fields) (a : MeetingActivity) : MeetingActivity :=
  {| _id := _id a;
     userId := default (userId a) (f_userId u ≫= castObjectId);
     meetingId := default (meetingId a) (f_meetingId u);
     meetingName := default (meetingName a) (f_meetingName u);
     type := default (type a) (f_type u);
     status := default (status a) (f_status u);
     duration := override (duration a) (f_duration u);
     participants := default (participants a) (f_participants u);
     startTime := override (startTime a) (f_startTime u);
     endTime := override (endTime a) (f_endTime u);
     createdAt := default (createdAt a) (f_createdAt u) |}.

Fixpoint update_by_id (id : nat) (u : fields) (l : list MeetingActivity)
  : option MeetingActivity * list MeetingActivity :=
  match l with
  | [] => (None, [])
  | a :: l' =>
      if Nat.eqb (_id a) id then (Some (apply_update u a), apply_update u a :: l')
      else let '(r, l'') := update_by_id id u l' in (r, a :: l'')
  end.

(** The cast of [updateData]: a [userId] that is no ObjectId is refused. *)
Definition update_castable (u : fields) : bool :=
  match f_userId u with
  | Some s => bool_decide (is_Some (castObjectId s))
  | None => true
  end.

(** [MeetingActivity.findByIdAndUpdate(id, updateData, { new: true })]: the
    document after the update, or null when no document has this [_id]; an
    update that cannot be cast is not sent. *)
Definition findByIdAndUpdate (id : nat) (updateData : fields)
  : M (option MeetingActivity) :=
  if update_castable updateData then
    query (op_findByIdAndUpdate id updateData) ;;
    fun w =>
      let '(r, l) := update_by_id id updateData (collection w) in
      (Return r, set_collection l w)
  else throw (CastError "userId").

(** ** [createActivity] (lines 120-140) and [updateActivity] (lines 143-156) *)

Definition createActivity (userId meetingId meetingName : option string)
    (type : activity_type) (additionalData : fields) : M populated :=
  try_catch
    (activity <- new_MeetingActivity
       (spread
          {| f_userId := userId;
             f_meetingId := meetingId;
             f_meetingName := Some (or_else meetingName "Unnamed Meeting");
             f_type := Some type;
             f_status := None; f_duration := None; f_participants := None;
             f_startTime := None; f_endTime := None; f_createdAt := None |}
          additionalData) ;;
     activity <- save activity ;;
     activity <- populate activity ;;
     ret activity)
    (fun error =>
       console_write (console_error "Error creating activity:") ;;
       throw error).

Definition updateActivity (activityId : nat) (updateData : fields)
  : M (option populated) :=
  try_catch
    (activity <- findByIdAndUpdate activityId updateData ;;
     match activity with
     | Some a => activity <- populate a ;; ret (Some activity)
     | None => ret None
     end)
    (fun error =>
       console_write (console_error "Error updating activity:") ;;
       throw error).

(** ** The socket server *)

(** The ids of the sockets in a room. *)
Definition room_members (w : world) (room : string) : gset string :=
  default ∅ (rooms w !! room).

(** [socket.join(room)]: the socket is added to the room; the rooms it is
    in already are kept. *)
Definition socket_join (socket room : string) : M unit :=
  fun w =>
    (Return tt,
     set_rooms (<[room := {[socket]} ∪ room_members w room]> (rooms w)) w).

(** What the socket server does with a socket that closes, before it calls
    the 'disconnect' listeners: the socket leaves every room. *)
Definition socket_leave_all (socket : string) : M unit :=
  fun w =>
    (Return tt,
     set_rooms ((fun members : gset string => members ∖ {[socket]}) <$> rooms w) w).

(** [socket.to(room).emit('activity-updated', payload)]: the packet goes to
    every socket in the room except [socket] itself, the sender. *)
Definition socket_to_emit (socket room : string) (p : packet) : M unit :=
  fun w =>
    (Return tt,
     set_emitted
       (emitted w
        ++ ((fun c => (c, p)) <$> elements (room_members w room ∖ {[socket]})))
       w).

(** [`user-${userId}`] for a [userId] that is a string. *)
Definition user_room (userId : string) : string := "user-" ++ userId.

(** ** [setupSocketHandlers] (lines 159-273) *)

(** The payload of [meeting-started] (lines 177-187). *)
Definition started_packet (activity : populated) : packet :=
  {| pk_event := "activity-updated";
     pk_type := "meeting-started";
     pk_activity :=
       {| v_id := _id (pop_doc activity);
          v_meetingId := meetingId (pop_doc activity);
          v_meetingName := meetingName (pop_doc activity);
          v_type := type (pop_doc activity);
          v_status := status (pop_doc activity);
          v_duration := None;
          v_participants := None;
          v_startTime := startTime (pop_doc activity);
          v_endTime := None;
          v_createdAt := createdAt (pop_doc activity);
          v_userId := pop_userId activity |} |}.

(** The payload of [meeting-completed] (lines 239-252). *)
Definition completed_packet (activity : populated) : packet :=
  {| pk_event := "activity-updated";
     pk_type := "meeting-completed";
     pk_activity :=
       {| v_id := _id (pop_doc activity);
          v_meetingId := meetingId (pop_doc activity);
          v_meetingName := meetingName (pop_doc activity);
          v_type := type (pop_doc activity);
          v_status := status (pop_doc activity);
          v_duration := duration (pop_doc activity);
          v_participants := Some (participants (pop_doc activity));
          v_startTime := startTime (pop_doc activity);
          v_endTime := endTime (pop_doc activity);
          v_createdAt := createdAt (pop_doc activity);
          v_userId := pop_userId activity |} |}.

(** [t || new Date()] *)
Definition or_new_Date (t : option Z) : M Z :=
  match t with
  | Some v => ret v
  | None => new_Date
  end.

(** [socket.on('meeting-started', async (data) => ...)] (lines 161-193) *)
Definition on_meeting_started (socket : string) (d : data) : M unit :=
  try_catch
    (if negb (truthy (data_meetingId d)) || negb (truthy (data_userId d)) then
       console_write
         (console_error "Missing required data for meeting-started event")
     else
       start <- or_new_Date (data_startTime d) ;;
       activity <- createActivity (data_userId d) (data_meetingId d)
         (data_meetingName d) ty_created
         {| f_userId := None; f_meetingId := None; f_meetingName := None;
            f_type := None;
            f_status := Some st_in_progress;
            f_duration := None; f_participants := None;
            f_startTime := Some start;
            f_endTime := None; f_createdAt := None |} ;;
       socket_to_emit socket (user_room (template (data_userId d)))
         (started_packet activity))
    (fun error =>
       console_write (console_error "Error handling meeting-started:")).

(** [meetingName && meetingName !== 'Meeting Room' ? meetingName
    : activity.meetingName] (line 222) *)
Definition merged_name (meetingName : option string) (stored : string) : string :=
  match meetingName with
  | Some s =>
      if truthy meetingName && negb (String.eqb s "Meeting Room") then s
      else stored
  | None => stored
  end.

(** [socket.on('meeting-completed', async (data) => ...)] (lines 196-258) *)
Definition on_meeting_completed (socket : string) (d : data) : M unit :=
  try_catch
    (if negb (truthy (data_meetingId d)) || negb (truthy (data_userId d)) then
       console_write
         (console_error "Missing required data for meeting-completed event")
     else
       console_write (console_log "Processing meeting completion:") ;;
       found <- findOne
         {| q_userId := data_userId d;
            q_meetingId := data_meetingId d;
            q_type := Some ty_created |} ;;
       activity <-
         match found with
         | Some activity =>
             finish <- or_new_Date (data_endTime d) ;;
             updateActivity (_id activity)
               {| f_userId := None; f_meetingId := None;
                  f_meetingName :=
                    Some (merged_name (data_meetingName d) (meetingName activity));
                  f_type := Some ty_completed;
                  f_status := Some st_completed;
                  f_duration := data_duration d;
                  f_participants := data_participants d;
                  f_startTime := None;
                  f_endTime := Some finish;
                  f_createdAt := None |}
         | None =>
             finish <- or_new_Date (data_endTime d) ;;
             activity <- createActivity (data_userId d) (data_meetingId d)
               (data_meetingName d) ty_completed
               {| f_userId := None; f_meetingId := None; f_meetingName := None;
                  f_type := None;
                  f_status := Some st_completed;
                  f_duration := data_duration d;
                  f_participants := data_participants d;
                  f_startTime := data_startTime d;
                  f_endTime := Some finish;
                  f_createdAt := None |} ;;
             ret (Some activity)
         end ;;
       console_write (console_log "Activity saved:") ;;
       match activity with
       | Some activity =>
           socket_to_emit socket (user_room (template (data_userId d)))
             (completed_packet activity)
       | None =>
           throw (TypeError "Cannot read properties of null (reading '_id')")
       end)
    (fun error =>
       console_write (console_error "Error handling meeting-completed:")).

(** What the conversion to a string makes of the argument of
    [join-user-room], when it makes a string of it. *)
Definition to_string (v : js_value) : option string :=
  match v with
  | js_undefined => Some "undefined"
  | js_string s => Some s
  | js_other converted => converted
  end.

(** [`${userId}`] for the argument of [join-user-room]; a value that cannot
    be converted throws. *)
Definition to_template (v : js_value) : M string :=
  match to_string v with
  | Some s => ret s
  | None => throw (TypeError "Cannot convert object to primitive value")
  end.

(** [socket.on('join-user-room', (userId) => ...)] (lines 261-264); the
    listener has no [try], so what the template throws leaves it. *)
Definition on_join_user_room (socket : string) (userId : js_value) : M unit :=
  room <- to_template userId ;;
  socket_join socket (user_room room) ;;
  name <- to_template userId ;;
  console_write (console_log ("User " ++ name ++ " joined their activity room")).

(** [handleDisconnect] (lines 267-270) *)
Definition handleDisconnect (socket : string) : M unit :=
  console_write (console_log ("Activity socket disconnected: " ++ socket)).

(** What reaches a socket of the server: one of the three events that
    [setupSocketHandlers] listens to, or the closing of the socket, on which
    the host calls [handleDisconnect] from the 'disconnect' listener. *)
Inductive event :=
  | meeting_started (socket : string) (d : data)
  | meeting_completed (socket : string) (d : data)
  | join_user_room (socket : string) (userId : js_value)
  | disconnect (socket : string).

Definition handle (e : event) : M unit :=
  match e with
  | meeting_started socket d => on_meeting_started socket d
  | meeting_completed socket d => on_meeting_completed socket d
  | join_user_room socket userId => on_join_user_room socket userId
  | disconnect socket => socket_leave_all socket ;; handleDisconnect socket
  end.

(** The server handles the events one after the other.  An exception that
    leaves a listener ends the handling of that event; the events that follow
    are handled as long as the process lives, so what holds after every
    sequence of events holds however long it lives. *)
Definition run (es : list event) (w : world) : world :=
  fold_left (fun w e => (handle e w).2) es w.

(** ** Views that the specification names *)

(** The channels subscribed to a user: the sockets in the user's room.  The
    room is named after the string that the subscriber sent. *)
Definition channelsFor (w : world) (u : string) : gset string :=
  room_members w (user_room u).

(** An open session of user [u] for meeting [m]: a stored document of type
    'created' whose [userId] is the ObjectId that [u] writes. *)
Definition open_session (u m : string) (a : MeetingActivity) : Prop :=
  castObjectId u = Some (userId a) ∧ meetingId a = m ∧ type a = ty_created.

(** The event carries both required fields, neither of them empty. *)
Definition valid_event (d : data) (u m : string) : Prop :=
  data_userId d = Some u ∧ u ≠ "" ∧ data_meetingId d = Some m ∧ m ≠ "".

(** What [_id]s promise: no two documents share one, and the generator has
    not yet produced the ones to come. *)
Definition ids_unique (w : world) : Prop :=
  NoDup (_id <$> collection w) ∧ ∀ a, a ∈ collection w → _id a < next_oid w.

(** The world of a server that has just started, with the users that the
    host knows. *)
Definition initial_world (us : list User) (clock : nat -> Z) : world :=
  {| collection := []; users := us; next_oid := 0; queries := []; rooms := ∅;
     emitted := []; console := []; clock := clock; ticks := 0 |}.

(** ** What the handlers build and leave behind

    The objects that the handlers pass to the collection, and the worlds
    that a run goes through, named so that the statements below can speak of
    them. *)

(** [additionalData] of the [meeting-started] handler (lines 171-172). *)
Definition started_extra (start : Z) : fields :=
  {| f_userId := None; f_meetingId := None; f_meetingName := None;
     f_type := None;
     f_status := Some st_in_progress;
     f_duration := None; f_participants := None;
     f_startTime := Some start;
     f_endTime := None; f_createdAt := None |}.

(** The filter of the [meeting-completed] handler (lines 208-212). *)
Definition open_filter (d : data) : query_filter :=
  {| q_userId := data_userId d;
     q_meetingId := data_meetingId d;
     q_type := Some ty_created |}.

(** [updateData] of the handler (lines 216-223). *)
Definition completed_update (d : data) (finish : Z) (stored : string) : fields :=
  {| f_userId := None; f_meetingId := None;
     f_meetingName := Some (merged_name (data_meetingName d) stored);
     f_type := Some ty_completed;
     f_status := Some st_completed;
     f_duration := data_duration d;
     f_participants := data_participants d;
     f_startTime := None;
     f_endTime := Some finish;
     f_createdAt := None |}.

(** [additionalData] of the handler (lines 226-232). *)
Definition completed_extra (d : data) (finish : Z) : fields :=
  {| f_userId := None; f_meetingId := None; f_meetingName := None;
     f_type := None;
     f_status := Some st_completed;
     f_duration := data_duration d;
     f_participants := data_participants d;
     f_startTime := data_startTime d;
     f_endTime := Some finish;
     f_createdAt := None |}.

(** The document that [createActivity] inserts for a user whose id has been
    cast and a meeting that is given, when [additionalData] has none of the
    four leading keys nor [createdAt]. *)
Definition inserted (user : ObjectId) (m : string) (name : option string)
    (ty : activity_type) (extra : fields) (w : world) : MeetingActivity :=
  {| _id := next_oid w;
     userId := user;
     meetingId := m;
     meetingName := or_else name "Unnamed Meeting";
     type := ty;
     status := default st_completed (f_status extra);
     duration := f_duration extra;
     participants := default [] (f_participants extra);
     startTime := f_startTime extra;
     endTime := f_endTime extra;
     createdAt := now w |}.

(** The world once [createActivity] has returned: one more [_id], one more
    reading of the clock (for [createdAt]), the document at the end of the
    collection, a save and a populate sent. *)
Definition after_insert (a : MeetingActivity) (w : world) : world :=
  {| collection := collection w ++ [a];
     users := users w;
     next_oid := S (next_oid w);
     queries := queries w ++ [op_save (_id a); op_populate (_id a)];
     rooms := rooms w; emitted := emitted w; console := console w;
     clock := clock w; ticks := S (ticks w) |}.

(** The world once the handler has logged the event, sent [findOne] and
    evaluated [endTime || new Date()]. *)
Definition searched (d : data) (w : world) : world :=
  (or_new_Date (data_endTime d)
     (set_queries (queries w ++ [op_findOne (open_filter d)])
        (set_console
           (console w ++ [console_log "Processing meeting completion:"]) w))).2.

(** The world once [updateActivity] has rewritten a document, populated it,
    and the handler has logged it. *)
Definition after_update (id : nat) (upd : fields) (a' : MeetingActivity)
    (l' : list MeetingActivity) (w : world) : world :=
  let w1 := set_collection l'
              (set_queries (queries w ++ [op_findByIdAndUpdate id upd]) w) in
  let w2 := set_queries (queries w1 ++ [op_populate (_id a')]) w1 in
  set_console (console w2 ++ [console_log "Activity saved:"]) w2.

(** The world once a handler has caught an error of the store under
    [message]: [createActivity] or [updateActivity] has logged it and thrown
    it again (when [inner] is given), and the handler has logged it. *)
Definition after_error (inner : option string) (message : string) (w : world)
  : world :=
  set_console
    (console w
     ++ match inner with Some s => [console_error s] | None => [] end
     ++ [console_error message]) w.

(** The packets that one [socket.to(room).emit] hands out. *)
Definition deliveries (socket : string) (u : string) (p : packet) (w : world)
  : list (string * packet) :=
  (fun c => (c, p)) <$> elements (channelsFor w u ∖ {[socket]}).

(** The filter of the [meeting-completed] handler once it is cast. *)
Definition open_conditions (user : ObjectId) (m : string) : conditions :=
  {| c_userId := Some user; c_meetingId := Some m; c_type := Some ty_created |}.

(** ** Predicates of the statements *)

(** A required field of the event is absent or empty. *)
Definition missing (v : option string) : Prop := v = None ∨ v = Some "".

(** The event is dropped: the handler returns normally, having written one
    error line to the console and nothing else; the collection, the id
    generator, the operations sent to the collection, the rooms and the
    packets sent are as before. *)
Definition dropped (message : string) (w : world)
    (r : outcome unit * world) : Prop :=
  r.1 = Return tt
  ∧ collection r.2 = collection w
  ∧ next_oid r.2 = next_oid w
  ∧ queries r.2 = queries w
  ∧ rooms r.2 = rooms w
  ∧ emitted r.2 = emitted w
  ∧ console r.2 = (console w ++ [console_error message])%list.

(** The record that a handler has written on the way from [w] to [w']: the
    one it appended, or the one it put in the place of the record with the
    same [_id]. *)
Definition written (w w' : world) (a : MeetingActivity) : Prop :=
  collection w' = (collection w ++ [a])%list
  ∨ ∃ k a0, collection w !! k = Some a0 ∧ _id a0 = _id a
            ∧ collection w' = <[k := a]> (collection w).

(** What either handler sends for an event that it stores: one packet, built
    from the record that it has written, populated, to the members of the
    user's room other than the sender. *)
Definition fans_out (socket u : string) (pack : populated → packet)
    (w : world) (r : outcome unit * world) : Prop :=
  ∃ a new,
    written w r.2 a
    ∧ emitted r.2 = (emitted w ++ new)%list
    ∧ ∀ c p, (c, p) ∈ new
             ↔ c ∈ channelsFor w u ∧ c ≠ socket ∧ p = pack (populate_doc w a).

(** The paths that no handler writes after the record is created. *)
Definition same_identity (r r' : MeetingActivity) : Prop :=
  _id r' = _id r ∧ userId r' = userId r ∧ meetingId r' = meetingId r
  ∧ startTime r' = startTime r ∧ createdAt r' = createdAt r.

(** The three ways a handler can leave the collection: as it was, with one
    record rewritten by the handler's update, or with one fresh record at the
    end. *)
Inductive collection_step (w w' : world) : Prop :=
  | step_same :
      collection w' = collection w → (next_oid w ≤ next_oid w')%nat →
      collection_step w w'
  | step_update id d finish stored :
      collection w'
      = (update_by_id id (completed_update d finish stored) (collection w)).2 →
      next_oid w' = next_oid w →
      collection_step w w'
  | step_insert a :
      collection w' = (collection w ++ [a])%list →
      _id a = next_oid w → next_oid w' = S (next_oid w) →
      collection_step w w'.

#[global] Instance open_session_dec u m a : Decision (open_session u m a).
Proof. unfold open_session. apply _. Defined.

(** An open session of the user with ObjectId [user] for meeting [m]. *)
Definition open_for (user : ObjectId) (m : string) (a : MeetingActivity)
  : Prop :=
  userId a = user ∧ meetingId a = m ∧ type a = ty_created.

#[global] Instance open_for_dec user m a : Decision (open_for user m a).
Proof. unfold open_for. apply _. Defined.

(** How many open sessions a user has for meeting [m]. *)
Definition open_count (user : ObjectId) (m : string)
    (l : list MeetingActivity) : nat :=
  length (filter (open_for user m) l).

(** What the handlers keep true of every stored record: [userId] is an
    ObjectId that a cast has produced (twelve bytes), the two required
    strings are not empty, and the record is either open ('created',
    'in-progress', started, with no end and no duration) or closed
    ('completed' in type and status, with an end). *)
Definition well_formed (a : MeetingActivity) : Prop :=
  (userId a < 2 ^ 96)%N ∧ meetingId a ≠ "" ∧ meetingName a ≠ ""
  ∧ ((type a = ty_created ∧ status a = st_in_progress
      ∧ is_Some (startTime a) ∧ endTime a = None ∧ duration a = None)
     ∨ (type a = ty_completed ∧ status a = st_completed
        ∧ is_Some (endTime a))).



(** ** Sample events and servers *)

Definition wall_clock : nat -> Z := fun n => (1700000000000 + Z.of_nat n)%Z.

(** The ids of three users, as their clients send them. *)
Definition ada_id : string := "64b7f0c2a1d3e4f5a6b7c8d9".
Definition bob_id : string := "64b7f0c2a1d3e4f5a6b7c8da".
Definition cyd_id : string := "5f1e2d3c4b5a69788796a5b4".

(** The ObjectId that a string of twenty-four hexadecimal digits writes. *)
Definition oid (s : string) : ObjectId := default 0%N (castObjectId s).

(** The users that the host knows: Ada and Bob; Cyd has no document. *)
Definition staff : list User :=
  [ {| user_id := oid ada_id; firstName := Some "Ada";
       lastName := Some "Lovelace"; profilePicture := None |};
    {| user_id := oid bob_id; firstName := Some "Bob";
       lastName := Some "Kahn"; profilePicture := Some "/img/bob.png" |} ].

Definition fresh_server : world := initial_world staff wall_clock.

(** One 'started' event on a fresh server: Ada, meeting m1, named. *)
Definition sprint_planning : data :=
  {| data_meetingId := Some "m1"; data_meetingName := Some "Sprint Planning";
     data_userId := Some ada_id; data_duration := None;
     data_participants := None; data_startTime := None;
     data_endTime := None |}.

(** The server after that one 'started' event: one open session. *)
Definition open_world : world :=
  (on_meeting_started "s1" sprint_planning fresh_server).2.

(** The matching 'completed' event: thirty minutes, no name, no end time. *)
Definition sprint_done : data :=
  {| data_meetingId := Some "m1"; data_meetingName := None;
     data_userId := Some ada_id; data_duration := Some 30%Z;
     data_participants := None; data_startTime := None;
     data_endTime := None |}.

(** A meeting started under the name 'Standup', and its completion under the
    placeholder name. *)
Definition standup_started : data :=
  {| data_meetingId := Some "m7"; data_meetingName := Some "Standup";
     data_userId := Some ada_id; data_duration := None;
     data_participants := None; data_startTime := None;
     data_endTime := None |}.

Definition standup_done : data :=
  {| data_meetingId := Some "m7"; data_meetingName := Some "Meeting Room";
     data_userId := Some ada_id; data_duration := Some 15%Z;
     data_participants := None; data_startTime := None;
     data_endTime := None |}.

Definition standup_world : world :=
  (on_meeting_started "s1" standup_started fresh_server).2.

(** A completion that arrives on a fresh server, with no 'started' before. *)
Definition bare_done : data :=
  {| data_meetingId := Some "m2"; data_meetingName := None;
     data_userId := Some bob_id; data_duration := Some 15%Z;
     data_participants := None; data_startTime := None;
     data_endTime := None |}.

(** A completion under the placeholder name, with no 'started' before. *)
Definition room_done : data :=
  {| data_meetingId := Some "m3"; data_meetingName := Some "Meeting Room";
     data_userId := Some cyd_id; data_duration := Some 5%Z;
     data_participants := None; data_startTime := None;
     data_endTime := None |}.

(** An event without [userId]. *)
Definition anonymous_event : data :=
  {| data_meetingId := Some "m1"; data_meetingName := Some "Sprint Planning";
     data_userId := None; data_duration := None;
     data_participants := None; data_startTime := None;
     data_endTime := None |}.

(** The events of the scenarios of the specification, whose user ids are the
    strings "u1", "u2" and "u3". *)
Definition scenario_started : data :=
  {| data_meetingId := Some "m1"; data_meetingName := Some "Sprint Planning";
     data_userId := Some "u1"; data_duration := None;
     data_participants := None; data_startTime := None;
     data_endTime := None |}.

Definition scenario_done : data :=
  {| data_meetingId := Some "m2"; data_meetingName := None;
     data_userId := Some "u2"; data_duration := Some 15%Z;
     data_participants := None; data_startTime := None;
     data_endTime := None |}.

Definition scenario_room_done : data :=
  {| data_meetingId := Some "m3"; data_meetingName := Some "Meeting Room";
     data_userId := Some "u3"; data_duration := Some 5%Z;
     data_participants := None; data_startTime := None;
     data_endTime := None |}.

(** Two tabs of Ada: sockets s1 and s2 have both joined her room. *)
Definition two_tabs : world :=
  run [join_user_room "s1" (js_string ada_id);
       join_user_room "s2" (js_string ada_id)] fresh_server.

(** Socket s1 joins the room of Ada, then the room of Bob. *)
Definition shared_tab : world :=
  run [join_user_room "s1" (js_string ada_id);
       join_user_room "s1" (js_string bob_id)] fresh_server.

(** A 'started' event of Bob. *)
Definition retro : data :=
  {| data_meetingId := Some "m9"; data_meetingName := Some "Retro";
     data_userId := Some bob_id; data_duration := None;
     data_participants := None; data_startTime := None;
     data_endTime := None |}.

(** A 'started' event that carries no name. *)
Definition unnamed_started : data :=
  {| data_meetingId := Some "4f9a0c3e-77b1"; data_meetingName := None;
     data_userId := Some ada_id; data_duration := None;
     data_participants := None; data_startTime := None;
     data_endTime := None |}.

(** The same meeting started twice, from two sockets: two open sessions. *)
Definition double_start : world :=
  run [meeting_started "s1" sprint_planning;
       meeting_started "s2" sprint_planning] fresh_server.

(** ** Numbers

    The numbers that the routes compute with come from [parseInt], from the
    literals 1 and 20 and from a count: NaN, the infinities and whole
    doubles.  [Finite z] is the double whose value is the integer [z]; the two
    zeros are not told apart (both are falsy, both are sent as a zero, both
    are written 0 in JSON). *)

Inductive number :=
  | NaN
  | Infinity (negative : bool)
  | Finite (z : Z).

(** The double nearest to the integer [z]: fifty-three bits are kept, a tie
    goes to the even one, and what reaches 2^1024 is infinite. *)
Definition to_double (z : Z) : number :=
  let a := Z.abs z in
  if (a <? 2 ^ 53)%Z then Finite z
  else
    let e := (Z.log2 a - 52)%Z in
    let m := (a / 2 ^ e)%Z in
    let r := (a mod 2 ^ e)%Z in
    let half := (2 ^ (e - 1))%Z in
    let m' := if (half <? r)%Z || ((r =? half)%Z && Z.odd m)
              then (m + 1)%Z else m in
    if (2 ^ 1024 <=? m' * 2 ^ e)%Z then Infinity (z <? 0)%Z
    else Finite (Z.sgn z * (m' * 2 ^ e))%Z.

(** [a - b] *)
Definition num_sub (a b : number) : number :=
  match a, b with
  | NaN, _ | _, NaN => NaN
  | Infinity s, Infinity s' => if Bool.eqb s s' then NaN else Infinity s
  | Infinity s, Finite _ => Infinity s
  | Finite _, Infinity s => Infinity (negb s)
  | Finite x, Finite y => to_double (x - y)
  end.

(** [a * b] *)
Definition num_mul (a b : number) : number :=
  match a, b with
  | NaN, _ | _, NaN => NaN
  | Infinity s, Infinity s' => Infinity (xorb s s')
  | Infinity s, Finite y | Finite y, Infinity s =>
      if (y =? 0)%Z then NaN else Infinity (xorb s (y <? 0)%Z)
  | Finite x, Finite y => to_double (x * y)
  end.

(** [n || d]: NaN and zero give [d]. *)
Definition num_or (n : number) (d : Z) : number :=
  match n with
  | NaN => Finite d
  | Infinity _ => n
  | Finite z => if (z =? 0)%Z then Finite d else n
  end.

(** The integer part of the binary logarithm of [a / b], for [a] and [b]
    above zero. *)
Definition log2_quotient (a b : Z) : Z :=
  let l := (Z.log2 a - Z.log2 b)%Z in
  if (a * 2 ^ Z.max 0 (- l) <? b * 2 ^ Z.max 0 l)%Z then (l - 1)%Z else l.

(** The double nearest to [a / b], for [a] and [b] above zero, as the pair
    [(m, e)] of the value [m * 2^e]: fifty-three bits of the quotient, fewer
    below 2^-1022, the last one rounded, a tie to the even one. *)
Definition double_quotient (a b : Z) : Z * Z :=
  let e := Z.max (log2_quotient a b - 52) (-1074) in
  let num := (a * 2 ^ Z.max 0 (- e))%Z in
  let den := (b * 2 ^ Z.max 0 e)%Z in
  let m := (num / den)%Z in
  let r := (num mod den)%Z in
  let m' := if (den <? 2 * r)%Z || ((2 * r =? den)%Z && Z.odd m)
            then (m + 1)%Z else m in
  (m', e).

(** [Math.ceil] and [Math.floor] of [m * 2^e]. *)
Definition dyadic_ceil (x : Z * Z) : Z :=
  if (0 <=? x.2)%Z then (x.1 * 2 ^ x.2)%Z else (- ((- x.1) / 2 ^ (- x.2)))%Z.

Definition dyadic_floor (x : Z * Z) : Z :=
  if (0 <=? x.2)%Z then (x.1 * 2 ^ x.2)%Z else (x.1 / 2 ^ (- x.2))%Z.

(** [Math.ceil(total / limit)] for a count [total]: the two numbers are
    divided as doubles, and the quotient is rounded up.  [limit] is not zero
    where the routes call this ([|| 20] has replaced a zero). *)
Definition ceil_quotient (total : Z) (limit : number) : number :=
  match to_double total, limit with
  | NaN, _ | _, NaN => NaN
  | Infinity _, Infinity _ => NaN
  | Infinity s, Finite l => Infinity (xorb s (l <? 0)%Z)
  | Finite _, Infinity _ => Finite 0
  | Finite t, Finite l =>
      if (l =? 0)%Z then (if (t =? 0)%Z then NaN else Infinity (t <? 0)%Z)
      else if (t =? 0)%Z then Finite 0
      else
        let q := double_quotient (Z.abs t) (Z.abs l) in
        if Bool.eqb (t <? 0)%Z (l <? 0)%Z then Finite (dyadic_ceil q)
        else Finite (- dyadic_floor q)
  end.

(** ** The HTTP routes (lines 36-117)

    [req] is the request once the session and authentication middlewares
    have run; of the query string only [page] and [limit] are read. *)

Record request := {
  session_userId : option string;   (* req.session.userId *)
  user__id : option string;         (* req.user?._id *)
  query_page : option string;       (* req.query.page *)
  query_limit : option string       (* req.query.limit *)
}.

(** The bodies that the routes send with [res.json]. *)
Inductive json :=
  | json_error (error : string)
  | json_activities (activities : list activity_view)
  | json_page (activities : list activity_view) (page limit total pages : number).

Record response := {
  res_status : nat;
  res_json : json
}.

(** [a || b] for two strings-or-undefined. *)
Definition or_value (a b : option string) : option string :=
  if truthy a then a else b.

(** *** [parseInt]

    [parseInt(string)] without a radix: leading white space is skipped, a
    sign is read, a prefix [0x] or [0X] selects base sixteen, and the longest
    run of digits of the base is the value, as a double; no digit at all is
    NaN. *)

(** What is left of [s] after the white space character that it starts
    with: TAB, LF, VT, FF, CR, SP, and in UTF-8 U+00A0, U+1680, U+2000 to
    U+200A, U+2028, U+2029, U+202F, U+205F, U+3000 and U+FEFF. *)
Definition white_space_prefix (s : string) : option string :=
  match s with
  | String c1 r1 =>
      let n1 := nat_of_ascii c1 in
      if (n1 =? 32)%nat || ((9 <=? n1)%nat && (n1 <=? 13)%nat) then Some r1
      else
        match r1 with
        | String c2 r2 =>
            let n2 := nat_of_ascii c2 in
            if (n1 =? 194)%nat && (n2 =? 160)%nat then Some r2
            else
              match r2 with
              | String c3 r3 =>
                  let n3 := nat_of_ascii c3 in
                  if (n1 =? 225)%nat && (n2 =? 154)%nat && (n3 =? 128)%nat
                  then Some r3
                  else if (n1 =? 226)%nat && (n2 =? 128)%nat
                          && (((128 <=? n3)%nat && (n3 <=? 138)%nat)
                              || (n3 =? 168)%nat || (n3 =? 169)%nat
                              || (n3 =? 175)%nat)
                  then Some r3
                  else if (n1 =? 226)%nat && (n2 =? 129)%nat && (n3 =? 159)%nat
                  then Some r3
                  else if (n1 =? 227)%nat && (n2 =? 128)%nat && (n3 =? 128)%nat
                  then Some r3
                  else if (n1 =? 239)%nat && (n2 =? 187)%nat && (n3 =? 191)%nat
                  then Some r3
                  else None
              | EmptyString => None
              end
        | EmptyString => None
        end
  | EmptyString => None
  end.

(** [s] without the white space that it starts with; [fuel] bounds the
    number of characters looked at. *)
Fixpoint trim_start_fuel (fuel : nat) (s : string) : string :=
  match fuel with
  | O => s
  | S fuel' =>
      match white_space_prefix s with
      | Some r => trim_start_fuel fuel' r
      | None => s
      end
  end.

Definition trim_start (s : string) : string :=
  trim_start_fuel (String.length s) s.

(** The value of a character as a digit, up to base thirty-six. *)
Definition digit_value (c : ascii) : option Z :=
  let n := nat_of_ascii c in
  if (48 <=? n)%nat && (n <=? 57)%nat then Some (Z.of_nat (n - 48))
  else if (97 <=? n)%nat && (n <=? 122)%nat then Some (Z.of_nat (n - 87))
  else if (65 <=? n)%nat && (n <=? 90)%nat then Some (Z.of_nat (n - 55))
  else None.

(** The longest run of digits of base [radix] at the head of [s], read from
    the value [acc] of the digits before it. *)
Fixpoint read_digits (radix : Z) (acc : option Z) (s : string) : option Z :=
  match s with
  | String c s' =>
      match digit_value c with
      | Some v =>
          if (v <? radix)%Z
          then read_digits radix (Some (radix * default 0%Z acc + v)%Z) s'
          else acc
      | None => acc
      end
  | EmptyString => acc
  end.

Definition parseInt (v : option string) : number :=
  let s := trim_start (template v) in
  let '(negative, s) :=
    match s with
    | String "-"%char s' => (true, s')
    | String "+"%char s' => (false, s')
    | _ => (false, s)
    end in
  let '(radix, s) :=
    match s with
    | String "0"%char (String "x"%char s') => (16%Z, s')
    | String "0"%char (String "X"%char s') => (16%Z, s')
    | _ => (10%Z, s)
    end in
  match read_digits radix None s with
  | Some n => to_double (if negative then (- n)%Z else n)
  | None => NaN
  end.

(** [parseInt(v) || d] *)
Definition parseInt_or (v : option string) (d : Z) : number :=
  num_or (parseInt v) d.

(** *** Queries *)

(** The order of [.sort({ createdAt: -1 })]: newest first. *)
Definition newer_first (a b : MeetingActivity) : Prop :=
  (createdAt b ≤ createdAt a)%Z.

#[global] Instance newer_first_dec a b : Decision (newer_first a b).
Proof. unfold newer_first. apply _. Defined.

(** [{ userId }] *)
Definition user_filter (userId : option string) : query_filter :=
  {| q_userId := userId; q_meetingId := None; q_type := None |}.

(** [{ userId }] once it is cast. *)
Definition user_conditions (user : ObjectId) : conditions :=
  {| c_userId := Some user; c_meetingId := None; c_type := None |}.

(** [MeetingActivity.find(filter).sort({ createdAt: -1 })], all of it. *)
Definition find_sorted (q : conditions) (w : world) : list MeetingActivity :=
  merge_sort newer_first (List.filter (matches q) (collection w)).

(** The whole number that the store reads in a number that it is sent: NaN
    is zero, and what lies beyond sixty-four bits is the nearest end. *)
Definition to_int64 (n : number) : Z :=
  match n with
  | NaN => 0%Z
  | Infinity negative => if negative then (- 2 ^ 63)%Z else (2 ^ 63 - 1)%Z
  | Finite z => Z.max (- 2 ^ 63) (Z.min (2 ^ 63 - 1) z)
  end.

(** [n < 0] *)
Definition is_negative (n : number) : bool :=
  match n with
  | NaN => false
  | Infinity negative => negative
  | Finite z => (z <? 0)%Z
  end.

(** [.limit(n)]: zero is no limit; the driver sends a negative limit as its
    absolute value and asks for one batch, which holds 101 documents at
    most. *)
Definition limit_to {A} (n : number) (l : list A) : list A :=
  let k := Z.abs (to_int64 n) in
  if is_negative n then take (Z.to_nat (Z.min k 101)) l
  else if (k =? 0)%Z then l
  else take (Z.to_nat k) l.

(** The error of the server for a negative skip; the routes log it and do
    not look at it. *)
Definition skip_rejected : exn := ValidationError "skip".

(** [MeetingActivity.find(filter).populate(...).sort({ createdAt: -1 })
    .skip(skip).limit(limit)]; a route that does not call [.skip] skips
    nothing. *)
Definition find_query (q : query_filter) (skip : option number)
    (limit : number) : M (list populated) :=
  match cast_filter q with
  | inl e => throw e
  | inr c =>
      fun w =>
        let n := to_int64 (default (Finite 0) skip) in
        if (n <? 0)%Z then (Throw skip_rejected, w)
        else
          (Return (populate_doc w
                   <$> limit_to limit (drop (Z.to_nat n) (find_sorted c w))),
           w)
  end.

(** [MeetingActivity.countDocuments(filter)] *)
Definition countDocuments (q : query_filter) : M Z :=
  match cast_filter q with
  | inl e => throw e
  | inr c =>
      fun w =>
        (Return (Z.of_nat (length (List.filter (matches c) (collection w)))), w)
  end.

(** The object that both routes build from a document (lines 49-61 and
    90-102). *)
Definition format_activity (activity : populated) : activity_view :=
  {| v_id := _id (pop_doc activity);
     v_meetingId := meetingId (pop_doc activity);
     v_meetingName :=
       or_else (Some (meetingName (pop_doc activity))) "Unnamed Meeting";
     v_type := type (pop_doc activity);
     v_status := status (pop_doc activity);
     v_duration := duration (pop_doc activity);
     v_participants := Some (participants (pop_doc activity));
     v_startTime := startTime (pop_doc activity);
     v_endTime := endTime (pop_doc activity);
     v_createdAt := createdAt (pop_doc activity);
     v_userId := pop_userId activity |}.

Definition not_authenticated : response :=
  {| res_status := 401; res_json := json_error "Not authenticated" |}.

Definition failed_to_fetch : response :=
  {| res_status := 500; res_json := json_error "Failed to fetch activities" |}.

(** [app.get('/api/recent-activities', ...)] (lines 36-68) *)
Definition get_recent_activities (req : request) : M response :=
  try_catch
    (let userId := or_value (session_userId req) (user__id req) in
     if negb (truthy userId) then ret not_authenticated
     else
       activities <- find_query (user_filter userId) None (Finite 10) ;;
       ret {| res_status := 200;
              res_json := json_activities (format_activity <$> activities) |})
    (fun error =>
       console_write (console_error "Error fetching recent activities:") ;;
       ret failed_to_fetch).

(** [app.get('/api/activities', ...)] (lines 71-117) *)
Definition get_activities (req : request) : M response :=
  try_catch
    (let userId := or_value (session_userId req) (user__id req) in
     if negb (truthy userId) then ret not_authenticated
     else
       let page := parseInt_or (query_page req) 1 in
       let limit := parseInt_or (query_limit req) 20 in
       let skip := num_mul (num_sub page (Finite 1)) limit in
       activities <- find_query (user_filter userId) (Some skip) limit ;;
       total <- countDocuments (user_filter userId) ;;
       ret {| res_status := 200;
              res_json :=
                json_page (format_activity <$> activities)
                  page limit (to_double total) (ceil_quotient total limit) |})
    (fun error =>
       console_write (console_error "Error fetching activities:") ;;
       ret failed_to_fetch).

(** *** What the statements about the routes speak of *)

(** The request carries the identity [u]. *)
Definition authenticated (req : request) (u : string) : Prop :=
  or_value (session_userId req) (user__id req) = Some u ∧ u ≠ "".

(** The activities of a user in the collection. *)
Definition activities_of (user : ObjectId) (w : world) : list MeetingActivity :=
  filter (λ a, userId a = user) (collection w).

(** [Math.ceil(total / limit)] of two whole numbers, [limit] above zero,
    computed without rounding. *)
Definition ceil_div (total limit : Z) : Z := (- ((- total) / limit))%Z.

(** The activities in the body of a response; an error has none. *)
Definition body_activities (r : response) : list activity_view :=
  match res_json r with
  | json_error _ => []
  | json_activities l => l
  | json_page l _ _ _ _ => l
  end.

(** The response of a computation that returns one. *)
Definition answer (r : outcome response * world) : option response :=
  match r.1 with
  | Return x => Some x
  | Throw _ => None
  end.

(** The computation answers, and leaves the collection, the id generator,
    the operations sent to the collection, the rooms and the packets sent as
    they were in [w]. *)
Definition only_reads (w : world) (r : outcome response * world) : Prop :=
  is_Some (answer r)
  ∧ collection r.2 = collection w ∧ next_oid r.2 = next_oid w
  ∧ queries r.2 = queries w
  ∧ rooms r.2 = rooms w ∧ emitted r.2 = emitted w.

(** A request for a page, signed in as Ada. *)
Definition page_request (page limit : option string) : request :=
  {| session_userId := Some ada_id; user__id := None;
     query_page := page; query_limit := limit |}.

(** Three meetings of Ada, one of Bob and one of Cyd. *)
Definition busy_world : world :=
  run [meeting_started "s1" sprint_planning;
       meeting_started "s1" standup_started;
       meeting_completed "s1" sprint_done;
       meeting_started "s1" retro;
       meeting_completed "s1" room_done;
       meeting_started "s2" sprint_planning]
    fresh_server.

(** ** The client: [addActivityItem] (lines 283-329)

    Of the function the title of the item is embedded, the [displayName] of
    lines 298-300; the rest writes to the page. *)

(** The number of bytes of the UTF-8 sequence that a byte opens.  A sequence
    of four bytes is a character that takes two UTF-16 units, any other a
    character that takes one. *)
Definition utf8_width (c : ascii) : nat :=
  let n := nat_of_ascii c in
  if (n <? 192)%nat then 1
  else if (n <? 224)%nat then 2
  else if (n <? 240)%nat then 3
  else 4.

(** The first of the two UTF-16 units of the character whose four bytes are
    [b0] and the head of [rest], in the three bytes that extend UTF-8 to a
    unit without its pair. *)
Definition high_surrogate (b0 : ascii) (rest : string) : string :=
  match rest with
  | String b1 (String b2 (String b3 _)) =>
      let code :=
        (N_of_ascii b0 mod 8 * 262144 + N_of_ascii b1 mod 64 * 4096
         + N_of_ascii b2 mod 64 * 64 + N_of_ascii b3 mod 64)%N in
      let unit := (55296 + (code - 65536) / 1024)%N in
      String (ascii_of_N 237)
        (String (ascii_of_N (128 + unit / 64 mod 64))
           (String (ascii_of_N (128 + unit mod 64)) EmptyString))
  | _ => EmptyString
  end.

(** The first [n] UTF-16 units of [s]; [pending] bytes of a character that
    has been counted are still to be copied. *)
Fixpoint utf16_prefix (n pending : nat) (s : string) : string :=
  match s with
  | EmptyString => EmptyString
  | String c s' =>
      match pending with
      | S k => String c (utf16_prefix n k s')
      | O =>
          match n with
          | O => EmptyString
          | S n' =>
              if (utf8_width c =? 4)%nat then
                match n' with
                | O => high_surrogate c s'
                | S n'' => String c (utf16_prefix n'' 3 s')
                end
              else String c (utf16_prefix n' (utf8_width c - 1) s')
          end
      end
  end.

(** [s.substring(0, n)] *)
Definition substring_0 (n : nat) (s : string) : string := utf16_prefix n 0 s.

(** [`Meeting ${activity.meetingId?.substring(0, 8) || ''}`] or the name. *)
Definition displayName (activity : activity_view) : string :=
  let meetingName := Some (v_meetingName activity) in
  if truthy meetingName
     && negb (String.eqb (v_meetingName activity) "Unnamed Meeting")
  then v_meetingName activity
  else "Meeting "
       ++ or_else (Some (substring_0 8 (v_meetingId activity))) "".

(** ** Tactics *)

(** Decides a closed proposition by evaluation. *)
Ltac by_compute :=
  match goal with
  | |- ?P => apply (bool_decide_unpack P); vm_compute; exact I
  end.

(** * Properties *)

(** ** Truthiness *)

Lemma truthy_Some (s : string) : truthy (Some s) = true ↔ s ≠ "".
Proof. unfold truthy. rewrite negb_true_iff. apply String.eqb_neq. Qed.

Lemma truthy_false (v : option string) :
  truthy v = false ↔ v = None ∨ v = Some "".
Proof.
  destruct v as [s|]; simpl.
  - rewrite negb_false_iff, String.eqb_eq. split.
    + intros ->. by right.
    + intros [H | H]; congruence.
  - split; [by left | done].
Qed.

Lemma or_else_supplied (s dflt : string) : s ≠ "" → or_else (Some s) dflt = s.
Proof. intros Hs. unfold or_else. by apply truthy_Some in Hs as ->. Qed.

Lemma or_else_missing v (dflt : string) :
  v = None ∨ v = Some "" → or_else v dflt = dflt.
Proof. by intros [-> | ->]. Qed.

Lemma or_else_truthy v (dflt : string) :
  dflt ≠ "" → truthy (Some (or_else v dflt)) = true.
Proof.
  intros Hd. destruct (truthy v) eqn:E.
  - destruct v as [s|]; [|done]. pose proof E as E'.
    apply truthy_Some in E'. by rewrite or_else_supplied.
  - apply truthy_false in E. rewrite or_else_missing by done.
    by apply truthy_Some.
Qed.

Lemma valid_event_guard d u m :
  valid_event d u m →
  negb (truthy (data_meetingId d)) || negb (truthy (data_userId d)) = false.
Proof.
  intros (Hu & Hu' & Hm & Hm'). rewrite Hu, Hm.
  apply truthy_Some in Hu', Hm'. by rewrite Hu', Hm'.
Qed.

Lemma invalid_event_guard d :
  truthy (data_userId d) = false ∨ truthy (data_meetingId d) = false →
  negb (truthy (data_meetingId d)) || negb (truthy (data_userId d)) = true.
Proof. intros [-> | ->]; simpl; [apply orb_true_r | done]. Qed.

(** ** The cast to ObjectId *)

Lemma castObjectId_length s user :
  castObjectId s = Some user → String.length s = 24.
Proof.
  unfold castObjectId. destruct (String.length s =? 24)%nat eqn:E; [|done].
  intros _. by apply Nat.eqb_eq.
Qed.

Lemma castObjectId_nonempty s user : castObjectId s = Some user → s ≠ "".
Proof. intros H ->. discriminate. Qed.

Lemma hex_digit_bound c v : hex_digit c = Some v → (v < 16)%N.
Proof.
  unfold hex_digit. set (n := nat_of_ascii c).
  repeat case_match; intros [= <-];
    repeat match goal with
           | H : _ && _ = true |- _ => apply andb_true_iff in H as [? ?]
           | H : (_ <=? _)%nat = true |- _ => apply Nat.leb_le in H
           end; lia.
Qed.

Lemma hex_value_bound s acc v :
  hex_value acc s = Some v →
  (v < (acc + 1) * 16 ^ N.of_nat (String.length s))%N.
Proof.
  revert acc v. induction s as [|c s IH]; intros acc v; cbn [hex_value].
  - intros [= <-]. cbn. lia.
  - destruct (hex_digit c) as [x|] eqn:Hc; [|done]. intros H.
    apply IH in H. apply hex_digit_bound in Hc.
    cbn [String.length]. rewrite Nat2N.inj_succ, N.pow_succ_r'. nia.
Qed.

(** An ObjectId that a cast produces has twelve bytes. *)
Lemma castObjectId_bound s user : castObjectId s = Some user → (user < 2 ^ 96)%N.
Proof.
  intros H. pose proof (castObjectId_length _ _ H) as Hl.
  unfold castObjectId in H. rewrite Hl in H. cbn [Nat.eqb] in H.
  apply hex_value_bound in H. rewrite Hl in H.
  change ((0 + 1) * 16 ^ N.of_nat 24)%N with (2 ^ 96)%N in H. done.
Qed.

(** ** Running [createActivity] *)

Lemma override_None_l {A} (x : option A) : override None x = x.
Proof. by destruct x. Qed.

Lemma createActivity_run u user m name ty extra w :
  castObjectId u = Some user → m ≠ "" →
  f_userId extra = None → f_meetingId extra = None →
  f_meetingName extra = None → f_type extra = None →
  f_createdAt extra = None →
  createActivity (Some u) (Some m) name ty extra w
  = (Return (populate_doc w (inserted user m name ty extra w)),
     after_insert (inserted user m name ty extra w) w).
Proof.
  intros Hcast Hm E1 E2 E3 E4 E5.
  pose proof (castObjectId_nonempty _ _ Hcast) as Hu.
  destruct extra; simpl in *; subst.
  apply truthy_Some in Hu, Hm.
  pose proof (or_else_truthy name "Unnamed Meeting") as Hn.
  unfold createActivity, try_catch, bind, new_MeetingActivity, save, validate.
  cbn -[truthy or_else castObjectId].
  rewrite Hu. cbn -[truthy or_else castObjectId].
  rewrite Hcast, Hm, Hn by done. cbn -[truthy or_else castObjectId].
  rewrite !override_None_l.
  unfold inserted, after_insert, populate_doc, find_user, now, set_queries,
    set_collection.
  cbn -[or_else]. by rewrite <- app_assoc.
Qed.

(** What [createActivity] does with a user id that is no ObjectId: the
    document is built (an [_id] and a reading of the clock are spent), the
    validation refuses it, the error is logged and thrown again. *)
Lemma createActivity_uncastable u m name ty extra w :
  u ≠ "" → castObjectId u = None →
  f_userId extra = None → f_createdAt extra = None →
  createActivity (Some u) m name ty extra w
  = (Throw (ValidationError "userId"),
     set_console (console w ++ [console_error "Error creating activity:"])
       (set_ticks (S (ticks w)) (set_next_oid (S (next_oid w)) w))).
Proof.
  intros Hu Hcast E1 E5. destruct extra; simpl in *; subst.
  apply truthy_Some in Hu.
  unfold createActivity, try_catch, bind, new_MeetingActivity, save, validate.
  cbn -[truthy or_else castObjectId].
  rewrite Hu. cbn -[truthy or_else castObjectId].
  by rewrite Hcast.
Qed.

(** ** Running [meeting-started] *)

Lemma or_new_Date_run t w :
  or_new_Date t w
  = (Return (default (now w) t),
     match t with Some _ => w | None => set_ticks (S (ticks w)) w end).
Proof. by destruct t. Qed.

Lemma on_meeting_started_run socket d w u m user :
  valid_event d u m → castObjectId u = Some user →
  let w1 := (or_new_Date (data_startTime d) w).2 in
  let a := inserted user m (data_meetingName d) ty_created
             (started_extra (default (now w) (data_startTime d))) w1 in
  on_meeting_started socket d w
  = socket_to_emit socket (user_room u) (started_packet (populate_doc w a))
      (after_insert a w1).
Proof.
  intros Hv Hcast. pose proof (valid_event_guard _ _ _ Hv) as Hg.
  destruct Hv as (Hu & Hu' & Hm & Hm').
  unfold on_meeting_started, try_catch. rewrite Hg.
  unfold bind at 1. rewrite or_new_Date_run. cbn [snd].
  unfold bind at 1. rewrite Hu, Hm.
  erewrite createActivity_run by done.
  by destruct (data_startTime d).
Qed.

(** The frame of the first step of either handler. *)
Lemma or_new_Date_frame t w :
  collection (or_new_Date t w).2 = collection w
  ∧ users (or_new_Date t w).2 = users w
  ∧ next_oid (or_new_Date t w).2 = next_oid w
  ∧ queries (or_new_Date t w).2 = queries w
  ∧ rooms (or_new_Date t w).2 = rooms w
  ∧ emitted (or_new_Date t w).2 = emitted w
  ∧ console (or_new_Date t w).2 = console w.
Proof. by destruct t. Qed.

(** C2, as the code has it. A valid 'started' event whose [userId] writes an
    ObjectId creates a new record: the handler returns normally, one document
    is appended to the collection under a fresh [_id], with that ObjectId as
    [userId], type 'created', status 'in-progress', the start time of the
    event or else the current time, and the name of the event or else
    'Unnamed Meeting'; the only operations sent to the store are the save and
    the populate of that document, so no existing record is searched for. *)
Theorem started_creates_record socket d w u m user :
  valid_event d u m → castObjectId u = Some user →
  ∃ a,
    (on_meeting_started socket d w).1 = Return tt
    ∧ collection (on_meeting_started socket d w).2 = (collection w ++ [a])%list
    ∧ queries (on_meeting_started socket d w).2
      = (queries w ++ [op_save (_id a); op_populate (_id a)])%list
    ∧ _id a = next_oid w ∧ userId a = user ∧ meetingId a = m
    ∧ type a = ty_created ∧ status a = st_in_progress
    ∧ startTime a = Some (default (now w) (data_startTime d))
    ∧ (∀ n, data_meetingName d = Some n → n ≠ "" → meetingName a = n)
    ∧ (data_meetingName d = None ∨ data_meetingName d = Some ""
       → meetingName a = "Unnamed Meeting").
Proof.
  intros Hv Hcast. rewrite (on_meeting_started_run _ _ _ _ _ _ Hv Hcast).
  destruct (or_new_Date_frame (data_startTime d) w)
    as (Hcol & _ & Hoid & Hq & _).
  set (w1 := (or_new_Date (data_startTime d) w).2) in *.
  exists (inserted user m (data_meetingName d) ty_created
            (started_extra (default (now w) (data_startTime d))) w1).
  cbn -[or_else]. rewrite Hoid, Hcol, Hq. repeat split.
  - intros n -> Hn. by apply or_else_supplied.
  - intros Hn. by apply or_else_missing.
Qed.

Lemma sprint_planning_valid : valid_event sprint_planning ada_id "m1".
Proof. by repeat split. Defined.

Lemma ada_id_cast : castObjectId ada_id = Some (oid ada_id).
Proof. reflexivity. Defined.

Lemma started_creates_record_witness :
  ∃ a,
    collection (on_meeting_started "s1" sprint_planning fresh_server).2 = [a]
    ∧ userId a = oid ada_id
    ∧ type a = ty_created ∧ status a = st_in_progress
    ∧ meetingName a = "Sprint Planning".
Proof.
  destruct (started_creates_record "s1" sprint_planning fresh_server
              ada_id "m1" (oid ada_id) sprint_planning_valid ada_id_cast)
    as (a & _ & Hc & _ & _ & Hu & _ & Ht & Hs & _ & Hn & _).
  exists a. repeat split; try done.
  by apply (Hn "Sprint Planning").
Defined.

Lemma on_meeting_started_uncastable socket d w u m :
  valid_event d u m → castObjectId u = None →
  on_meeting_started socket d w
  = (Return tt,
     after_error (Some "Error creating activity:")
       "Error handling meeting-started:"
       (set_ticks (S (ticks (or_new_Date (data_startTime d) w).2))
          (set_next_oid (S (next_oid w)) (or_new_Date (data_startTime d) w).2))).
Proof.
  intros Hv Hcast. pose proof (valid_event_guard _ _ _ Hv) as Hg.
  destruct Hv as (Hu & Hu' & Hm & Hm').
  unfold on_meeting_started, try_catch. rewrite Hg.
  unfold bind at 1. rewrite or_new_Date_run. cbn [snd].
  unfold bind at 1. rewrite Hu.
  rewrite createActivity_uncastable by done.
  unfold after_error, console_write. destruct (data_startTime d); cbn.
  all: by rewrite <- app_assoc.
Qed.

(** C2, as stated, fails: the 'started' event of the scenario of the
    specification is valid (user "u1" and meeting "m1" are present), and it
    creates no record: "u1" is no ObjectId, the validation of the schema
    refuses the document, and the handler logs the error and sends
    nothing. *)
Lemma started_scenario_creates_nothing :
  valid_event scenario_started "u1" "m1"
  ∧ (on_meeting_started "s1" scenario_started two_tabs).1 = Return tt
  ∧ collection (on_meeting_started "s1" scenario_started two_tabs).2 = []
  ∧ queries (on_meeting_started "s1" scenario_started two_tabs).2 = []
  ∧ emitted (on_meeting_started "s1" scenario_started two_tabs).2 = []
  ∧ console (on_meeting_started "s1" scenario_started two_tabs).2
    = (console two_tabs
       ++ [console_error "Error creating activity:";
           console_error "Error handling meeting-started:"])%list.
Proof.
  split; [by repeat split|].
  rewrite (on_meeting_started_uncastable "s1" scenario_started two_tabs
             "u1" "m1"); [|by repeat split|reflexivity].
  by repeat split.
Qed.

(** ** The collection: [findOne] and [findByIdAndUpdate] *)

Lemma cast_open_filter d u m user :
  data_userId d = Some u → data_meetingId d = Some m →
  castObjectId u = Some user →
  cast_filter (open_filter d) = inr (open_conditions user m).
Proof.
  intros Hu Hm Hcast. unfold cast_filter, open_filter. cbn.
  by rewrite Hu, Hm, Hcast.
Qed.

Lemma matches_open_conditions user m a :
  matches (open_conditions user m) a = true ↔ open_for user m a.
Proof.
  unfold matches, open_conditions, open_for. cbn.
  rewrite !andb_true_iff, !bool_decide_eq_true.
  split; [intros [[? ?] ?] | intros (? & ? & ?)]; by repeat split.
Qed.

Lemma open_session_for u user m a :
  castObjectId u = Some user → open_session u m a ↔ open_for user m a.
Proof.
  intros Hcast. unfold open_session, open_for. rewrite Hcast.
  split; intros (H & ? & ?); repeat split; congruence.
Qed.

Lemma matches_open_session u user m a :
  castObjectId u = Some user →
  matches (open_conditions user m) a = true ↔ open_session u m a.
Proof.
  intros Hcast. by rewrite matches_open_conditions, (open_session_for u user).
Qed.

Lemma find_lookup {A} (f : A → bool) (l : list A) a :
  find f l = Some a → ∃ k, l !! k = Some a ∧ f a = true.
Proof.
  intros H. apply find_some in H as [Hin Hf].
  apply list_elem_of_In, list_elem_of_lookup in Hin as [k Hk]. eauto.
Qed.

Lemma find_exists {A} (f : A → bool) (l : list A) :
  (∃ x, x ∈ l ∧ f x = true) → ∃ a, find f l = Some a.
Proof.
  intros (x & Hin & Hf). destruct (find f l) as [a|] eqn:E; [eauto|].
  apply list_elem_of_In in Hin.
  pose proof (find_none f l E x Hin). congruence.
Qed.

Lemma find_absent {A} (f : A → bool) (l : list A) :
  (∀ x, x ∈ l → f x = false) → find f l = None.
Proof.
  intros H. destruct (find f l) as [a|] eqn:E; [|done].
  apply find_some in E as [Hin Hf]. apply list_elem_of_In in Hin.
  rewrite (H a Hin) in Hf. discriminate.
Qed.

(** [findByIdAndUpdate] reaches the first document that has the id. *)
Lemma update_by_id_elem id u l :
  (∃ a, a ∈ l ∧ _id a = id) →
  ∃ k b, l !! k = Some b ∧ _id b = id
         ∧ update_by_id id u l
           = (Some (apply_update u b), <[k := apply_update u b]> l).
Proof.
  induction l as [|c l IH]; intros (a & Hin & Ha).
  - by apply elem_of_nil in Hin.
  - cbn [update_by_id]. destruct (Nat.eqb (_id c) id) eqn:E.
    + apply Nat.eqb_eq in E. by exists 0, c.
    + apply Nat.eqb_neq in E. apply elem_of_cons in Hin as [-> | Hin]; [done|].
      destruct IH as (k & b & Hk & Hb & Hupd); [eauto|].
      exists (S k), b. by rewrite Hupd.
Qed.

(** When ids are unique, that document is the one that was found. *)
Lemma update_by_id_lookup u l k a :
  NoDup (_id <$> l) → l !! k = Some a →
  update_by_id (_id a) u l
  = (Some (apply_update u a), <[k := apply_update u a]> l).
Proof.
  revert k. induction l as [|c l IH]; intros k Hnd Hk; [done|].
  rewrite fmap_cons in Hnd. apply NoDup_cons in Hnd as [Hc Hnd].
  cbn [update_by_id]. destruct k as [|k]; simplify_eq/=.
  - by rewrite Nat.eqb_refl.
  - destruct (Nat.eqb (_id c) (_id a)) eqn:E.
    + apply Nat.eqb_eq in E. exfalso. apply Hc. rewrite E.
      apply list_elem_of_fmap. exists a. split; [done|].
      by eapply list_elem_of_lookup_2.
    + by rewrite (IH k Hnd Hk).
Qed.

Lemma update_by_id_none id u l :
  (∀ a, a ∈ l → _id a ≠ id) → update_by_id id u l = (None, l).
Proof.
  induction l as [|c l IH]; intros H; [done|].
  cbn [update_by_id]. destruct (Nat.eqb (_id c) id) eqn:E.
  - apply Nat.eqb_eq in E. exfalso. eapply H; [|done]. apply elem_of_cons; eauto.
  - rewrite IH; [done|]. intros a Ha. apply H. apply elem_of_cons; eauto.
Qed.

Lemma update_by_id_ids id u l :
  _id <$> (update_by_id id u l).2 = _id <$> l.
Proof.
  induction l as [|c l IH]; [done|].
  cbn [update_by_id]. destruct (Nat.eqb (_id c) id); [done|].
  destruct (update_by_id id u l) as [r l'] eqn:E. cbn in *. by rewrite IH.
Qed.

(** ** Running [meeting-completed] *)

Lemma searched_frame d w :
  collection (searched d w) = collection w
  ∧ users (searched d w) = users w
  ∧ next_oid (searched d w) = next_oid w
  ∧ rooms (searched d w) = rooms w
  ∧ emitted (searched d w) = emitted w
  ∧ clock (searched d w) = clock w.
Proof. unfold searched. rewrite or_new_Date_run. by destruct (data_endTime d). Qed.

(** One step of a computation that returns. *)
Lemma bind_Return {A B} (c : M A) (k : A → M B) w a w' :
  c w = (Return a, w') → bind c k w = k a w'.
Proof. unfold bind. by intros ->. Qed.

(** One step of a computation that throws. *)
Lemma bind_Throw {A B} (c : M A) (k : A → M B) w e w' :
  c w = (Throw e, w') → bind c k w = (Throw e, w').
Proof. unfold bind. by intros ->. Qed.

Lemma findOne_run q c w r :
  cast_filter q = inr c →
  find (matches c) (collection w) = r →
  findOne q w = (Return r, set_queries (queries w ++ [op_findOne q]) w).
Proof. unfold findOne. by intros -> <-. Qed.

Lemma findOne_uncastable q e w :
  cast_filter q = inl e → findOne q w = (Throw e, w).
Proof. unfold findOne. by intros ->. Qed.

Lemma updateActivity_run id u w r l :
  update_castable u = true →
  update_by_id id u (collection w) = (Some r, l) →
  updateActivity id u w
  = (Return (Some (populate_doc w r)),
     let w1 := set_collection l
                 (set_queries (queries w ++ [op_findByIdAndUpdate id u]) w) in
     set_queries (queries w1 ++ [op_populate (_id r)]) w1).
Proof.
  intros Hc H.
  unfold updateActivity, try_catch, findByIdAndUpdate, bind, query, populate.
  rewrite Hc. cbn -[update_by_id]. by rewrite H.
Qed.

Lemma on_meeting_completed_found socket d w u m user a a' l' :
  valid_event d u m → castObjectId u = Some user →
  find (matches (open_conditions user m)) (collection w) = Some a →
  let upd := completed_update d (default (now w) (data_endTime d))
               (meetingName a) in
  update_by_id (_id a) upd (collection w) = (Some a', l') →
  on_meeting_completed socket d w
  = socket_to_emit socket (user_room u) (completed_packet (populate_doc w a'))
      (after_update (_id a) upd a' l' (searched d w)).
Proof.
  intros Hv Hcast Hfind upd Hupd. pose proof (valid_event_guard _ _ _ Hv) as Hg.
  destruct Hv as (Hu & Hu' & Hm & Hm').
  unfold on_meeting_completed, try_catch. rewrite Hg.
  erewrite bind_Return by reflexivity.
  erewrite bind_Return
    by (apply (findOne_run _ _ _ _ (cast_open_filter d u m user Hu Hm Hcast));
        exact Hfind).
  cbv beta iota. subst upd. unfold searched.
  destruct (data_endTime d) as [t|].
  all: erewrite bind_Return;
    [|erewrite bind_Return by reflexivity;
      apply updateActivity_run; [reflexivity | exact Hupd]].
  all: cbv beta; erewrite bind_Return by reflexivity; cbv beta iota.
  all: unfold open_filter; rewrite Hu, ?Hm; reflexivity.
Qed.

Lemma on_meeting_completed_absent socket d w u m user :
  valid_event d u m → castObjectId u = Some user →
  find (matches (open_conditions user m)) (collection w) = None →
  let w1 := searched d w in
  let a := inserted user m (data_meetingName d) ty_completed
             (completed_extra d (default (now w) (data_endTime d))) w1 in
  on_meeting_completed socket d w
  = socket_to_emit socket (user_room u) (completed_packet (populate_doc w a))
      (set_console (console w1 ++ [console_log "Activity saved:"])
         (after_insert a w1)).
Proof.
  intros Hv Hcast Hfind. pose proof (valid_event_guard _ _ _ Hv) as Hg.
  destruct Hv as (Hu & Hu' & Hm & Hm').
  unfold on_meeting_completed, try_catch. rewrite Hg.
  erewrite bind_Return by reflexivity.
  erewrite bind_Return
    by (apply (findOne_run _ _ _ _ (cast_open_filter d u m user Hu Hm Hcast));
        exact Hfind).
  cbv beta iota. cbv zeta. unfold searched.
  destruct (data_endTime d) as [t|].
  all: erewrite bind_Return;
    [|erewrite bind_Return by reflexivity; cbv beta;
      erewrite bind_Return;
      [|rewrite Hu, Hm; by apply createActivity_run]; reflexivity].
  all: cbv beta; erewrite bind_Return by reflexivity; cbv beta iota.
  all: unfold open_filter; rewrite Hu, ?Hm; reflexivity.
Qed.

(** A 'completed' event whose user id is no ObjectId: the filter cannot be
    cast, [findOne] throws before anything is sent, and the handler logs the
    error. *)
Lemma on_meeting_completed_uncastable socket d w u m :
  valid_event d u m → castObjectId u = None →
  on_meeting_completed socket d w
  = (Return tt,
     set_console
       (console w
        ++ [console_log "Processing meeting completion:";
            console_error "Error handling meeting-completed:"]) w).
Proof.
  intros Hv Hcast. pose proof (valid_event_guard _ _ _ Hv) as Hg.
  destruct Hv as (Hu & Hu' & Hm & Hm').
  unfold on_meeting_completed, try_catch. rewrite Hg.
  erewrite bind_Return by reflexivity.
  erewrite bind_Throw.
  2:{ apply findOne_uncastable. unfold cast_filter. cbn. by rewrite Hu, Hcast. }
  unfold console_write, set_console. cbn. by rewrite <- app_assoc.
Qed.

(** The update path, end to end: with unique ids, the open session that
    [findOne] returns is the document that [findByIdAndUpdate] rewrites. *)
Lemma on_meeting_completed_merge socket d w u m :
  valid_event d u m →
  NoDup (_id <$> collection w) →
  (∃ r, r ∈ collection w ∧ open_session u m r) →
  ∃ k a,
    collection w !! k = Some a ∧ open_session u m a
    ∧ let upd := completed_update d (default (now w) (data_endTime d))
                   (meetingName a) in
      on_meeting_completed socket d w
      = socket_to_emit socket (user_room u)
          (completed_packet (populate_doc w (apply_update upd a)))
          (after_update (_id a) upd (apply_update upd a)
             (<[k := apply_update upd a]> (collection w)) (searched d w)).
Proof.
  intros Hv Hnd (r & Hr & Hopen).
  pose proof Hopen as (Hcast & _).
  destruct (find_exists (matches (open_conditions (userId r) m)) (collection w))
    as [a Hfind].
  { exists r. split; [done|]. by apply (matches_open_session u). }
  destruct (find_lookup _ _ _ Hfind) as (k & Hk & Hmatch).
  exists k, a. split; [done|]. split.
  - by apply (matches_open_session u (userId r)).
  - intros upd.
    apply (on_meeting_completed_found _ _ _ _ _ _ _ _ _ Hv Hcast Hfind).
    by apply update_by_id_lookup.
Qed.

(** C1. A 'completed' event that finds an open session updates that record in
    place: the handler returns normally, the collection is the old one with
    the document at the session's position replaced (so it has as many
    documents as before, and no [_id] is generated), the [_id] is kept, type
    and status become 'completed', duration and participants are those of
    the event (a key the event does not carry leaves the stored value), and
    the end time is that of the event or else the current time. *)
Theorem completed_updates_open_session socket d w u m :
  valid_event d u m →
  NoDup (_id <$> collection w) →
  (∃ r, r ∈ collection w ∧ open_session u m r) →
  ∃ k a a',
    collection w !! k = Some a ∧ open_session u m a
    ∧ (on_meeting_completed socket d w).1 = Return tt
    ∧ collection (on_meeting_completed socket d w).2 = <[k := a']> (collection w)
    ∧ length (collection (on_meeting_completed socket d w).2)
      = length (collection w)
    ∧ next_oid (on_meeting_completed socket d w).2 = next_oid w
    ∧ _id a' = _id a
    ∧ type a' = ty_completed ∧ status a' = st_completed
    ∧ duration a'
      = match data_duration d with Some x => Some x | None => duration a end
    ∧ participants a'
      = match data_participants d with Some p => p | None => participants a end
    ∧ endTime a' = Some (default (now w) (data_endTime d)).
Proof.
  intros Hv Hnd Hopen.
  destruct (on_meeting_completed_merge socket d w u m Hv Hnd Hopen)
    as (k & a & Hk & Ha & Hrun).
  cbv zeta in Hrun. rewrite Hrun. clear Hrun.
  destruct (searched_frame d w) as (_ & _ & Hoid & _).
  exists k, a,
    (apply_update
       (completed_update d (default (now w) (data_endTime d)) (meetingName a))
       a).
  split; [done|]. split; [done|].
  cbn. rewrite length_insert, Hoid.
  repeat split; by destruct (data_participants d).
Qed.

Lemma open_world_collection :
  collection open_world
  = [ {| _id := 0; userId := oid ada_id; meetingId := "m1";
         meetingName := "Sprint Planning"; type := ty_created;
         status := st_in_progress; duration := None; participants := [];
         startTime := Some 1700000000000%Z; endTime := None;
         createdAt := 1700000000001%Z |} ].
Proof. reflexivity. Qed.

Lemma open_world_ids : NoDup (_id <$> collection open_world).
Proof. rewrite open_world_collection. cbn. apply NoDup_singleton. Defined.

Lemma open_world_session :
  ∃ r, r ∈ collection open_world ∧ open_session ada_id "m1" r.
Proof.
  rewrite open_world_collection. eexists. split; [apply list_elem_of_here|].
  by repeat split.
Defined.

Lemma sprint_done_valid : valid_event sprint_done ada_id "m1".
Proof. by repeat split. Defined.

Lemma completed_updates_open_session_witness :
  ∃ a',
    collection (on_meeting_completed "s2" sprint_done open_world).2 = [a']
    ∧ _id a' = 0 ∧ type a' = ty_completed ∧ status a' = st_completed
    ∧ duration a' = Some 30%Z
    ∧ endTime a' = Some 1700000000002%Z.
Proof.
  destruct (completed_updates_open_session "s2" sprint_done open_world
              ada_id "m1" sprint_done_valid open_world_ids open_world_session)
    as (k & a & a' & Hk & _ & _ & Hc & _ & _ & Hid & Ht & Hs & Hd & _ & He).
  rewrite open_world_collection in Hk, Hc.
  destruct k as [|k]; [|destruct k; discriminate].
  injection Hk as <-. exists a'. by repeat split.
Defined.

(** C4. When a 'completed' event merges into an open session, the stored name
    is replaced by the name of the event only when that name is non-empty and
    is not 'Meeting Room'; an event without a name, with an empty name or with
    the name 'Meeting Room' leaves the stored name as it is. *)
Theorem completed_name_overwrite_rule socket d w u m :
  valid_event d u m →
  NoDup (_id <$> collection w) →
  (∃ r, r ∈ collection w ∧ open_session u m r) →
  ∃ k a a',
    collection w !! k = Some a ∧ open_session u m a
    ∧ collection (on_meeting_completed socket d w).2 = <[k := a']> (collection w)
    ∧ (∀ n, data_meetingName d = Some n → n ≠ "" → n ≠ "Meeting Room" →
            meetingName a' = n)
    ∧ (data_meetingName d = None ∨ data_meetingName d = Some ""
       ∨ data_meetingName d = Some "Meeting Room" →
       meetingName a' = meetingName a).
Proof.
  intros Hv Hnd Hopen.
  destruct (on_meeting_completed_merge socket d w u m Hv Hnd Hopen)
    as (k & a & Hk & Ha & Hrun).
  cbv zeta in Hrun. rewrite Hrun. clear Hrun.
  eexists k, a, _. split; [done|]. split; [done|]. split; [reflexivity|].
  cbn -[merged_name]. split.
  - intros n -> Hn Hroom. unfold merged_name.
    apply truthy_Some in Hn as ->. by apply String.eqb_neq in Hroom as ->.
  - by intros [-> | [-> | ->]].
Qed.

Lemma standup_world_collection :
  collection standup_world
  = [ {| _id := 0; userId := oid ada_id; meetingId := "m7";
         meetingName := "Standup"; type := ty_created;
         status := st_in_progress; duration := None; participants := [];
         startTime := Some 1700000000000%Z; endTime := None;
         createdAt := 1700000000001%Z |} ].
Proof. reflexivity. Qed.

Lemma standup_world_ids : NoDup (_id <$> collection standup_world).
Proof. rewrite standup_world_collection. cbn. apply NoDup_singleton. Defined.

Lemma standup_world_session :
  ∃ r, r ∈ collection standup_world ∧ open_session ada_id "m7" r.
Proof.
  rewrite standup_world_collection. eexists. split; [apply list_elem_of_here|].
  by repeat split.
Defined.

Lemma standup_done_valid : valid_event standup_done ada_id "m7".
Proof. by repeat split. Defined.

Lemma completed_name_overwrite_rule_witness :
  ∃ a',
    collection (on_meeting_completed "s1" standup_done standup_world).2 = [a']
    ∧ meetingName a' = "Standup".
Proof.
  destruct (completed_name_overwrite_rule "s1" standup_done standup_world
              ada_id "m7" standup_done_valid standup_world_ids
              standup_world_session)
    as (k & a & a' & Hk & _ & Hc & _ & Hkeep).
  rewrite standup_world_collection in Hk, Hc.
  destruct k as [|k]; [|destruct k; discriminate].
  injection Hk as <-. exists a'. split; [done|].
  apply Hkeep. by right; right.
Defined.

(** The create path, end to end. *)
Lemma on_meeting_completed_create socket d w u m user :
  valid_event d u m → castObjectId u = Some user →
  (∀ r, r ∈ collection w → ¬ open_session u m r) →
  let a := inserted user m (data_meetingName d) ty_completed
             (completed_extra d (default (now w) (data_endTime d)))
             (searched d w) in
  on_meeting_completed socket d w
  = socket_to_emit socket (user_room u) (completed_packet (populate_doc w a))
      (set_console (console (searched d w) ++ [console_log "Activity saved:"])
         (after_insert a (searched d w))).
Proof.
  intros Hv Hcast Hnone.
  apply on_meeting_completed_absent; [done..|].
  apply find_absent. intros r Hr.
  destruct (matches (open_conditions user m) r) eqn:E; [|done].
  apply (matches_open_session u user m) in E; [|done]. by destruct (Hnone r).
Qed.

(** C3, as the code has it. A 'completed' event whose [userId] writes an
    ObjectId and that finds no open session creates a record in the
    completed state: the handler returns normally and appends one document
    under a fresh [_id], with type and status 'completed', the duration of
    the event, the start time of the event if it has one and none otherwise,
    the end time of the event or else the current time, and the name
    'Unnamed Meeting' when the event has no name or an empty one. *)
Theorem completed_without_session_creates socket d w u m user :
  valid_event d u m → castObjectId u = Some user →
  (∀ r, r ∈ collection w → ¬ open_session u m r) →
  ∃ a,
    (on_meeting_completed socket d w).1 = Return tt
    ∧ collection (on_meeting_completed socket d w).2 = (collection w ++ [a])%list
    ∧ _id a = next_oid w ∧ userId a = user ∧ meetingId a = m
    ∧ type a = ty_completed ∧ status a = st_completed
    ∧ duration a = data_duration d
    ∧ startTime a = data_startTime d
    ∧ endTime a = Some (default (now w) (data_endTime d))
    ∧ (data_meetingName d = None ∨ data_meetingName d = Some ""
       → meetingName a = "Unnamed Meeting")
    ∧ (∀ n, data_meetingName d = Some n → n ≠ "" → meetingName a = n).
Proof.
  intros Hv Hcast Hnone.
  rewrite (on_meeting_completed_create socket d w u m user Hv Hcast Hnone).
  destruct (searched_frame d w) as (Hcol & _ & Hoid & _).
  exists (inserted user m (data_meetingName d) ty_completed
            (completed_extra d (default (now w) (data_endTime d)))
            (searched d w)).
  cbn -[or_else searched]. rewrite Hcol, Hoid. repeat split.
  - intros Hn. by apply or_else_missing.
  - intros n -> Hn. by apply or_else_supplied.
Qed.

Lemma bare_done_valid : valid_event bare_done bob_id "m2".
Proof. by repeat split. Defined.

Lemma bob_id_cast : castObjectId bob_id = Some (oid bob_id).
Proof. reflexivity. Defined.

Lemma initial_world_no_session us clk u m :
  ∀ r, r ∈ collection (initial_world us clk) → ¬ open_session u m r.
Proof. intros r Hr. by apply elem_of_nil in Hr. Defined.

Lemma completed_without_session_creates_witness :
  ∃ a,
    collection (on_meeting_completed "s1" bare_done fresh_server).2 = [a]
    ∧ userId a = oid bob_id
    ∧ type a = ty_completed ∧ status a = st_completed
    ∧ duration a = Some 15%Z ∧ startTime a = None
    ∧ meetingName a = "Unnamed Meeting".
Proof.
  destruct (completed_without_session_creates "s1" bare_done fresh_server
              bob_id "m2" (oid bob_id) bare_done_valid bob_id_cast
              (initial_world_no_session staff wall_clock bob_id "m2"))
    as (a & _ & Hc & _ & Hu & _ & Ht & Hs & Hd & Hst & _ & Hn & _).
  exists a. repeat split; try done. apply Hn. by left.
Defined.

(** C3, as stated, fails: the bare 'completed' event of the scenario of the
    specification (user "u2", meeting "m2", fifteen minutes) finds no open
    session and creates no record: "u2" is no ObjectId, so the filter of
    [findOne] cannot be cast, and the handler logs the error. *)
Lemma completed_scenario_creates_nothing :
  valid_event scenario_done "u2" "m2"
  ∧ (∀ r, r ∈ collection fresh_server → ¬ open_session "u2" "m2" r)
  ∧ (on_meeting_completed "s1" scenario_done fresh_server).1 = Return tt
  ∧ collection (on_meeting_completed "s1" scenario_done fresh_server).2 = []
  ∧ queries (on_meeting_completed "s1" scenario_done fresh_server).2 = []
  ∧ console (on_meeting_completed "s1" scenario_done fresh_server).2
    = [console_log "Processing meeting completion:";
       console_error "Error handling meeting-completed:"].
Proof.
  split; [by repeat split|]. split; [apply initial_world_no_session|].
  rewrite (on_meeting_completed_uncastable "s1" scenario_done fresh_server
             "u2" "m2"); [|by repeat split|reflexivity].
  by repeat split.
Qed.

(** C10, as the code has it. The placeholder filter is not applied when a
    'completed' event whose [userId] writes an ObjectId creates its record:
    a non-empty name is stored as it is, 'Meeting Room' included, and only a
    missing or empty name becomes 'Unnamed Meeting'. *)
Theorem completed_create_keeps_placeholder socket d w u m user :
  valid_event d u m → castObjectId u = Some user →
  (∀ r, r ∈ collection w → ¬ open_session u m r) →
  ∃ a,
    collection (on_meeting_completed socket d w).2 = (collection w ++ [a])%list
    ∧ (∀ n, data_meetingName d = Some n → n ≠ "" → meetingName a = n)
    ∧ (data_meetingName d = Some "Meeting Room" → meetingName a = "Meeting Room")
    ∧ (data_meetingName d = None ∨ data_meetingName d = Some ""
       → meetingName a = "Unnamed Meeting").
Proof.
  intros Hv Hcast Hnone.
  rewrite (on_meeting_completed_create socket d w u m user Hv Hcast Hnone).
  destruct (searched_frame d w) as (Hcol & _).
  exists (inserted user m (data_meetingName d) ty_completed
            (completed_extra d (default (now w) (data_endTime d)))
            (searched d w)).
  cbn -[or_else searched]. rewrite Hcol. repeat split.
  - intros n -> Hn. by apply or_else_supplied.
  - by intros ->.
  - intros Hn. by apply or_else_missing.
Qed.

Lemma room_done_valid : valid_event room_done cyd_id "m3".
Proof. by repeat split. Defined.

Lemma cyd_id_cast : castObjectId cyd_id = Some (oid cyd_id).
Proof. reflexivity. Defined.

Lemma completed_create_keeps_placeholder_witness :
  ∃ a,
    collection (on_meeting_completed "s1" room_done fresh_server).2 = [a]
    ∧ meetingName a = "Meeting Room".
Proof.
  destruct (completed_create_keeps_placeholder "s1" room_done fresh_server
              cyd_id "m3" (oid cyd_id) room_done_valid cyd_id_cast
              (initial_world_no_session staff wall_clock cyd_id "m3"))
    as (a & Hc & _ & Hn & _).
  exists a. split; [done|]. by apply Hn.
Defined.

(** C10, as stated, fails: a 'completed' event of user "u3" under the name
    'Meeting Room' finds no open session, and no record carries the name
    afterwards: "u3" is no ObjectId and nothing is stored. *)
Lemma placeholder_scenario_stores_nothing :
  valid_event scenario_room_done "u3" "m3"
  ∧ data_meetingName scenario_room_done = Some "Meeting Room"
  ∧ (∀ r, r ∈ collection fresh_server → ¬ open_session "u3" "m3" r)
  ∧ collection (on_meeting_completed "s1" scenario_room_done fresh_server).2
    = [].
Proof.
  split; [by repeat split|]. split; [done|].
  split; [apply initial_world_no_session|].
  by rewrite (on_meeting_completed_uncastable "s1" scenario_room_done
                fresh_server "u3" "m3"); [|by repeat split|reflexivity].
Qed.

(** ** Events that lack a required field *)

Lemma missing_falsy v : missing v ↔ truthy v = false.
Proof. unfold missing. by rewrite truthy_false. Qed.

Lemma on_meeting_started_invalid socket d w :
  missing (data_userId d) ∨ missing (data_meetingId d) →
  on_meeting_started socket d w
  = console_write
      (console_error "Missing required data for meeting-started event") w.
Proof.
  intros H. rewrite !missing_falsy in H. apply invalid_event_guard in H.
  unfold on_meeting_started, try_catch. by rewrite H.
Qed.

Lemma on_meeting_completed_invalid socket d w :
  missing (data_userId d) ∨ missing (data_meetingId d) →
  on_meeting_completed socket d w
  = console_write
      (console_error "Missing required data for meeting-completed event") w.
Proof.
  intros H. rewrite !missing_falsy in H. apply invalid_event_guard in H.
  unfold on_meeting_completed, try_catch. by rewrite H.
Qed.

(** C5. A 'started' or 'completed' event whose [userId] or [meetingId] is
    absent or empty is dropped: no record is created or changed, nothing is
    sent to the collection or to any socket, the failure is written to the
    error console, and the handler returns normally instead of throwing. *)
Theorem invalid_event_dropped socket d w :
  missing (data_userId d) ∨ missing (data_meetingId d) →
  dropped "Missing required data for meeting-started event" w
    (on_meeting_started socket d w)
  ∧ dropped "Missing required data for meeting-completed event" w
      (on_meeting_completed socket d w).
Proof.
  intros H.
  rewrite on_meeting_started_invalid, on_meeting_completed_invalid by done.
  by split.
Qed.

Lemma invalid_event_dropped_witness :
  (missing (data_userId anonymous_event)
   ∨ missing (data_meetingId anonymous_event))
  ∧ dropped "Missing required data for meeting-started event" open_world
      (on_meeting_started "s1" anonymous_event open_world)
  ∧ dropped "Missing required data for meeting-completed event" open_world
      (on_meeting_completed "s1" anonymous_event open_world).
Proof.
  assert (H : missing (data_userId anonymous_event)
              ∨ missing (data_meetingId anonymous_event))
    by (left; by left).
  split; [exact H|].
  exact (invalid_event_dropped "s1" anonymous_event open_world H).
Defined.

(** ** Rooms and fan-out *)

Lemma socket_to_emit_run socket u p w :
  socket_to_emit socket (user_room u) p w
  = (Return tt, set_emitted (emitted w ++ deliveries socket u p w) w).
Proof. reflexivity. Qed.

Lemma elem_of_deliveries socket u p w c q :
  (c, q) ∈ deliveries socket u p w
  ↔ c ∈ channelsFor w u ∧ c ≠ socket ∧ q = p.
Proof.
  unfold deliveries. rewrite list_elem_of_fmap. split.
  - intros (c' & [= -> ->] & Hc). apply elem_of_elements in Hc.
    apply elem_of_difference in Hc as [Hin Hs].
    rewrite elem_of_singleton in Hs. done.
  - intros (Hin & Hs & ->). exists c. split; [done|].
    apply elem_of_elements, elem_of_difference.
    by rewrite elem_of_singleton.
Qed.

Lemma deliveries_rooms socket u p w w' :
  rooms w' = rooms w → deliveries socket u p w' = deliveries socket u p w.
Proof.
  intros H. unfold deliveries, channelsFor, room_members. by rewrite H.
Qed.

Lemma on_meeting_started_fans_out socket d w u m user :
  valid_event d u m → castObjectId u = Some user →
  fans_out socket u started_packet w (on_meeting_started socket d w).
Proof.
  intros Hv Hcast. rewrite (on_meeting_started_run _ _ _ _ _ _ Hv Hcast).
  rewrite socket_to_emit_run. cbn [fst snd].
  destruct (or_new_Date_frame (data_startTime d) w)
    as (Hcol & _ & _ & _ & Hr & He & _).
  set (w1 := (or_new_Date (data_startTime d) w).2) in *.
  eexists _, _. split; [|split].
  - left. cbn. by rewrite Hcol.
  - cbn [emitted set_emitted after_insert]. by rewrite He.
  - intros c p. rewrite (deliveries_rooms _ _ _ w); [|done].
    apply elem_of_deliveries.
Qed.

Lemma on_meeting_completed_fans_out socket d w u m user :
  valid_event d u m → castObjectId u = Some user →
  fans_out socket u completed_packet w (on_meeting_completed socket d w).
Proof.
  intros Hv Hcast.
  destruct (searched_frame d w) as (Hcol & _ & _ & Hr & He & _).
  destruct (find (matches (open_conditions user m)) (collection w))
    as [a|] eqn:Hfind.
  - destruct (find_lookup _ _ _ Hfind) as (k & Hk & _).
    destruct (update_by_id_elem (_id a)
                (completed_update d (default (now w) (data_endTime d))
                   (meetingName a)) (collection w))
      as (k' & b & Hk' & Hb & Hupd).
    { exists a. split; [|done]. by eapply list_elem_of_lookup_2. }
    rewrite (on_meeting_completed_found _ _ _ _ _ _ _ _ _ Hv Hcast Hfind Hupd).
    rewrite socket_to_emit_run. cbn [fst snd].
    eexists (apply_update _ b), _. split; [|split].
    + right. exists k', b. split; [done|]. split; [done|]. reflexivity.
    + cbn -[searched deliveries]. by rewrite He.
    + intros c p. rewrite (deliveries_rooms _ _ _ w); [|done].
      apply elem_of_deliveries.
  - rewrite (on_meeting_completed_absent _ _ _ _ _ _ Hv Hcast Hfind).
    rewrite socket_to_emit_run. cbn [fst snd].
    eexists _, _. split; [|split].
    + left. cbn -[searched inserted]. by rewrite Hcol.
    + cbn -[searched deliveries]. by rewrite He.
    + intros c p. rewrite (deliveries_rooms _ _ _ w); [|done].
      apply elem_of_deliveries.
Qed.

(** C6, as the code has it. Publishing the update of an event of user [u]
    that arrived on socket [socket] hands one packet, built from the record
    that the event has written, to every socket in the room of [u] except
    [socket] itself, and to no other socket. *)
Theorem publish_reaches_room_except_sender socket d w u m user :
  valid_event d u m → castObjectId u = Some user →
  fans_out socket u started_packet w (on_meeting_started socket d w)
  ∧ fans_out socket u completed_packet w (on_meeting_completed socket d w).
Proof.
  intros Hv Hcast. split.
  - exact (on_meeting_started_fans_out socket d w u m user Hv Hcast).
  - exact (on_meeting_completed_fans_out socket d w u m user Hv Hcast).
Qed.

Lemma publish_reaches_room_except_sender_witness :
  fans_out "s1" ada_id started_packet two_tabs
    (on_meeting_started "s1" sprint_planning two_tabs)
  ∧ fans_out "s1" ada_id completed_packet two_tabs
      (on_meeting_completed "s1" sprint_planning two_tabs).
Proof.
  exact (publish_reaches_room_except_sender "s1" sprint_planning two_tabs
           ada_id "m1" (oid ada_id) sprint_planning_valid ada_id_cast).
Defined.

(** C6, as stated, fails: s1 and s2 are both subscribed to Ada, the 'started'
    event arrives on s1, and the packet reaches s2 only. *)
Lemma publish_skips_sender :
  "s1" ∈ channelsFor two_tabs ada_id
  ∧ "s2" ∈ channelsFor two_tabs ada_id
  ∧ (∃ p, emitted (on_meeting_started "s1" sprint_planning two_tabs).2
          = [("s2", p)])
  ∧ ¬ ∃ p, ("s1", p)
           ∈ emitted (on_meeting_started "s1" sprint_planning two_tabs).2.
Proof.
  assert (He : ∃ p, emitted (on_meeting_started "s1" sprint_planning two_tabs).2
                    = [("s2", p)]) by (eexists; vm_compute; reflexivity).
  split; [|split; [|split]].
  - by_compute.
  - by_compute.
  - exact He.
  - destruct He as [p0 ->]. intros [p Hp].
    apply list_elem_of_singleton in Hp. discriminate.
Qed.

Lemma user_room_inj u u' : user_room u = user_room u' → u = u'.
Proof. unfold user_room. intros H. by simplify_eq/=. Qed.

Lemma on_join_user_room_run socket v s w :
  to_string v = Some s →
  on_join_user_room socket v w
  = (Return tt,
     set_console
       (console w
        ++ [console_log ("User " ++ s ++ " joined their activity room")])
       (set_rooms
          (<[user_room s := {[socket]} ∪ room_members w (user_room s)]> (rooms w))
          w)).
Proof.
  intros H. unfold on_join_user_room, to_template, bind. by rewrite H.
Qed.

Lemma on_join_user_room_throws socket v w :
  to_string v = None →
  on_join_user_room socket v w
  = (Throw (TypeError "Cannot convert object to primitive value"), w).
Proof.
  intros H. unfold on_join_user_room, to_template, bind. by rewrite H.
Qed.

Lemma room_members_join socket v s w room :
  to_string v = Some s →
  room_members (on_join_user_room socket v w).2 room
  = if decide (room = user_room s) then {[socket]} ∪ room_members w room
    else room_members w room.
Proof.
  intros H. rewrite (on_join_user_room_run _ _ _ _ H).
  unfold room_members. cbn -[user_room]. case_decide as E.
  - subst room. by rewrite lookup_insert_eq.
  - by rewrite lookup_insert_ne.
Qed.

Lemma channelsFor_join socket u w u' :
  channelsFor (on_join_user_room socket (js_string u) w).2 u'
  = if decide (u' = u) then {[socket]} ∪ channelsFor w u' else channelsFor w u'.
Proof.
  unfold channelsFor. rewrite (room_members_join _ _ u) by done.
  repeat case_decide; try done.
  - exfalso. by apply user_room_inj in H.
  - by subst.
Qed.

(** C7, as the code has it. Joining the room of a user adds the socket to
    that room and takes it out of no room: afterwards the socket is subscribed
    to that user and to every user it was subscribed to before, the other
    sockets are subscribed as before, and the socket is handed the packet of
    every event of every user that it is subscribed to, when the event is
    stored and arrives on another socket. *)
Theorem join_adds_subscription socket u w :
  (on_join_user_room socket (js_string u) w).1 = Return tt
  ∧ (∀ u' c,
       c ∈ channelsFor (on_join_user_room socket (js_string u) w).2 u'
       ↔ c ∈ channelsFor w u' ∨ (c = socket ∧ u' = u))
  ∧ ∀ u' sender d m user,
      (socket ∈ channelsFor w u' ∨ u' = u) → sender ≠ socket →
      valid_event d u' m → castObjectId u' = Some user →
      let w' := (on_join_user_room socket (js_string u) w).2 in
      (∃ a new,
         written w' (on_meeting_started sender d w').2 a
         ∧ emitted (on_meeting_started sender d w').2 = (emitted w' ++ new)%list
         ∧ (socket, started_packet (populate_doc w' a)) ∈ new)
      ∧ (∃ a new,
           written w' (on_meeting_completed sender d w').2 a
           ∧ emitted (on_meeting_completed sender d w').2
             = (emitted w' ++ new)%list
           ∧ (socket, completed_packet (populate_doc w' a)) ∈ new).
Proof.
  assert (Hch : ∀ u' c,
            c ∈ channelsFor (on_join_user_room socket (js_string u) w).2 u'
            ↔ c ∈ channelsFor w u' ∨ (c = socket ∧ u' = u)).
  { intros u' c. rewrite channelsFor_join. case_decide as E.
    - subst u'. rewrite elem_of_union, elem_of_singleton. tauto.
    - tauto. }
  split; [done|]. split; [exact Hch|].
  intros u' sender d m user Hsub Hne Hv Hcast w'.
  assert (Hin : socket ∈ channelsFor w' u').
  { apply Hch. destruct Hsub as [H | ->]; [by left | by right]. }
  split.
  - destruct (on_meeting_started_fans_out sender d w' u' m user Hv Hcast)
      as (a & new & Hw & He & Hnew).
    exists a, new. split; [done|]. split; [done|]. by apply Hnew.
  - destruct (on_meeting_completed_fans_out sender d w' u' m user Hv Hcast)
      as (a & new & Hw & He & Hnew).
    exists a, new. split; [done|]. split; [done|]. by apply Hnew.
Qed.

(** C7, as stated, fails: after s1 has subscribed to Ada and then to Bob, it
    is subscribed to both, and an event of either user, arriving on another
    socket, is handed to s1. *)
Lemma channel_in_two_rooms :
  "s1" ∈ channelsFor shared_tab ada_id
  ∧ "s1" ∈ channelsFor shared_tab bob_id
  ∧ (∃ p, emitted (on_meeting_started "s9" sprint_planning shared_tab).2
          = [("s1", p)])
  ∧ (∃ p, emitted (on_meeting_started "s9" retro shared_tab).2
          = [("s1", p)]).
Proof.
  split; [|split; [|split]].
  - by_compute.
  - by_compute.
  - eexists. vm_compute. reflexivity.
  - eexists. vm_compute. reflexivity.
Qed.

(** ** What every event keeps *)

Lemma event_cases d :
  (missing (data_userId d) ∨ missing (data_meetingId d))
  ∨ (∃ u m, valid_event d u m ∧ castObjectId u = None)
  ∨ (∃ u m user, valid_event d u m ∧ castObjectId u = Some user).
Proof.
  destruct (truthy (data_userId d)) eqn:Eu.
  - destruct (truthy (data_meetingId d)) eqn:Em.
    + right. destruct (data_userId d) as [u|] eqn:Hu; [|done].
      destruct (data_meetingId d) as [m|] eqn:Hm; [|done].
      apply truthy_Some in Eu, Em.
      assert (Hv : valid_event d u m) by (unfold valid_event; by rewrite Hu, Hm).
      destruct (castObjectId u) as [user|] eqn:Hcast.
      * right. by exists u, m, user.
      * left. by exists u, m.
    + left. right. by apply missing_falsy.
  - left. left. by apply missing_falsy.
Qed.

Lemma on_meeting_started_step socket d w :
  collection_step w (on_meeting_started socket d w).2.
Proof.
  destruct (event_cases d)
    as [Hmiss | [(u & m & Hv & Hcast) | (u & m & user & Hv & Hcast)]].
  - rewrite on_meeting_started_invalid by done. by apply step_same.
  - rewrite (on_meeting_started_uncastable _ _ _ _ _ Hv Hcast).
    destruct (or_new_Date_frame (data_startTime d) w) as (Hcol & _ & Hoid & _).
    apply step_same; cbn; [done | lia].
  - rewrite (on_meeting_started_run _ _ _ _ _ _ Hv Hcast).
    destruct (or_new_Date_frame (data_startTime d) w) as (Hcol & _ & Hoid & _).
    eapply step_insert; cbn; [by rewrite Hcol | done | by rewrite Hoid].
Qed.

Lemma on_meeting_completed_step socket d w :
  collection_step w (on_meeting_completed socket d w).2.
Proof.
  destruct (event_cases d)
    as [Hmiss | [(u & m & Hv & Hcast) | (u & m & user & Hv & Hcast)]].
  { rewrite on_meeting_completed_invalid by done. by apply step_same. }
  { rewrite (on_meeting_completed_uncastable _ _ _ _ _ Hv Hcast).
    by apply step_same. }
  destruct (searched_frame d w) as (Hcol & _ & Hoid & _).
  destruct (find (matches (open_conditions user m)) (collection w))
    as [a|] eqn:Hfind.
  - destruct (find_lookup _ _ _ Hfind) as (k & Hk & _).
    destruct (update_by_id_elem (_id a)
                (completed_update d (default (now w) (data_endTime d))
                   (meetingName a)) (collection w))
      as (k' & b & Hk' & Hb & Hupd).
    { exists a. split; [|done]. by eapply list_elem_of_lookup_2. }
    rewrite (on_meeting_completed_found _ _ _ _ _ _ _ _ _ Hv Hcast Hfind Hupd).
    eapply step_update; cbn; [by rewrite Hupd | done].
  - rewrite (on_meeting_completed_absent _ _ _ _ _ _ Hv Hcast Hfind).
    eapply step_insert; cbn; [by rewrite Hcol | done | by rewrite Hoid].
Qed.

Lemma update_by_id_keeps id d finish stored l j r :
  l !! j = Some r →
  ∃ r', (update_by_id id (completed_update d finish stored) l).2 !! j = Some r'
        ∧ same_identity r r'.
Proof.
  revert j. induction l as [|c l IH]; intros j Hj; [done|].
  cbn [update_by_id]. destruct (Nat.eqb (_id c) id).
  - destruct j as [|j]; simplify_eq/=; eexists; by split.
  - destruct (update_by_id id _ l) as [o l'] eqn:E.
    destruct j as [|j]; simplify_eq/=.
    + eexists. by split.
    + by apply IH.
Qed.

(** Whatever the event, a record that is in the collection stays at its
    position and keeps [_id], [userId], [meetingId], [startTime] and
    [createdAt]. *)
Lemma collection_step_keeps w w' j r :
  collection_step w w' → collection w !! j = Some r →
  ∃ r', collection w' !! j = Some r' ∧ same_identity r r'.
Proof.
  intros [Hc _ | id d finish stored Hc _ | a Hc _ _] Hj; rewrite Hc.
  - by exists r.
  - by apply update_by_id_keeps.
  - exists r. split; [|done]. by apply lookup_app_l_Some.
Qed.

Lemma lifecycle_keeps_identity socket d w j r :
  collection w !! j = Some r →
  (∃ r', collection (on_meeting_started socket d w).2 !! j = Some r'
         ∧ same_identity r r')
  ∧ (∃ r', collection (on_meeting_completed socket d w).2 !! j = Some r'
           ∧ same_identity r r').
Proof.
  intros Hj. split; eapply collection_step_keeps; try done.
  - apply on_meeting_started_step.
  - apply on_meeting_completed_step.
Qed.

(** ** Uniqueness of [_id] is kept *)

Lemma ids_unique_initial us clk : ids_unique (initial_world us clk).
Proof.
  split; [apply NoDup_nil_2|]. intros a Ha. by apply elem_of_nil in Ha.
Qed.

Lemma collection_step_ids_unique w w' :
  collection_step w w' → ids_unique w → ids_unique w'.
Proof.
  intros Hstep [Hnd Hlt].
  destruct Hstep as [Hc Ho | id d finish stored Hc Ho | a Hc Hid Ho].
  - split; rewrite Hc; [done|]. intros a Ha. apply Hlt in Ha. lia.
  - assert (Hids : _id <$> collection w' = _id <$> collection w)
      by (rewrite Hc; apply update_by_id_ids).
    split; [by rewrite Hids|]. intros a Ha. rewrite Ho.
    assert (_id a ∈ _id <$> collection w) as Hin
      by (rewrite <- Hids; by apply list_elem_of_fmap_2).
    apply list_elem_of_fmap in Hin as (b & -> & Hb). by apply Hlt.
  - split.
    + rewrite Hc, fmap_app. apply NoDup_app. split; [done|]. split.
      * intros x Hx Hx'. apply list_elem_of_singleton in Hx'. subst x.
        apply list_elem_of_fmap in Hx as (b & Hb & Hin).
        apply Hlt in Hin. lia.
      * apply NoDup_singleton.
    + intros b Hb. rewrite Hc in Hb. rewrite Ho.
      apply elem_of_app in Hb as [Hb | Hb].
      * apply Hlt in Hb. lia.
      * apply list_elem_of_singleton in Hb. subst b. lia.
Qed.

Lemma handlers_keep_ids_unique socket d w :
  ids_unique w →
  ids_unique (on_meeting_started socket d w).2
  ∧ ids_unique (on_meeting_completed socket d w).2.
Proof.
  intros H. split; eapply collection_step_ids_unique; try done.
  - apply on_meeting_started_step.
  - apply on_meeting_completed_step.
Qed.

(** ** Any sequence of events *)

(** A 'join-user-room' and the closing of a socket leave the collection, the
    id generator and the packets sent alone. *)
Lemma on_join_user_room_frame socket v w :
  collection (on_join_user_room socket v w).2 = collection w
  ∧ users (on_join_user_room socket v w).2 = users w
  ∧ next_oid (on_join_user_room socket v w).2 = next_oid w
  ∧ emitted (on_join_user_room socket v w).2 = emitted w.
Proof.
  destruct (to_string v) as [s|] eqn:E.
  - by rewrite (on_join_user_room_run _ _ _ _ E).
  - by rewrite (on_join_user_room_throws _ _ _ E).
Qed.

Lemma handle_step e w : collection_step w (handle e w).2.
Proof.
  destruct e as [socket d | socket d | socket v | socket]; cbn [handle].
  - apply on_meeting_started_step.
  - apply on_meeting_completed_step.
  - destruct (on_join_user_room_frame socket v w) as (Hc & _ & Ho & _).
    apply step_same; [done | lia].
  - by apply step_same.
Qed.

Lemma same_identity_trans r1 r2 r3 :
  same_identity r1 r2 → same_identity r2 r3 → same_identity r1 r3.
Proof.
  unfold same_identity. intros (?&?&?&?&?) (?&?&?&?&?).
  repeat split; congruence.
Qed.

(** Through any sequence of events a record stays at its position and keeps
    [_id], [userId], [meetingId], [startTime] and [createdAt]. *)
Lemma run_keeps_identity es w j r :
  collection w !! j = Some r →
  ∃ r', collection (run es w) !! j = Some r' ∧ same_identity r r'.
Proof.
  revert w r. induction es as [|e es IH]; intros w r Hj.
  - exists r. by repeat split.
  - destruct (collection_step_keeps w (handle e w).2 j r (handle_step e w) Hj)
      as (r1 & Hj1 & H1).
    destruct (IH _ _ Hj1) as (r2 & Hj2 & H2).
    exists r2. split; [done|]. by eapply same_identity_trans.
Qed.

(** On a server that started empty, whatever events arrive, no two records
    share an [_id], and the [_id] of every record is one that the generator
    has already given out. *)
Lemma run_ids_unique es us clk : ids_unique (run es (initial_world us clk)).
Proof.
  assert (H : ∀ w, ids_unique w → ids_unique (run es w)).
  { induction es as [|e es IH]; intros w Hw; [done|].
    apply IH. eapply collection_step_ids_unique; [apply handle_step | done]. }
  apply H, ids_unique_initial.
Qed.

(** ** What the update of a completion leaves alone *)

(** C9. The update of a 'completed' event that merges into an open session
    leaves [_id], [userId], [meetingId], [startTime] and [createdAt] of the
    record as they were, and leaves every other record of the collection
    untouched; whatever events follow, the record keeps its [_id] and its
    [createdAt]. *)
Theorem completed_update_frame socket d w u m :
  valid_event d u m →
  NoDup (_id <$> collection w) →
  (∃ r, r ∈ collection w ∧ open_session u m r) →
  ∃ k a a',
    collection w !! k = Some a ∧ open_session u m a
    ∧ collection (on_meeting_completed socket d w).2 !! k = Some a'
    ∧ _id a' = _id a ∧ userId a' = userId a ∧ meetingId a' = meetingId a
    ∧ startTime a' = startTime a ∧ createdAt a' = createdAt a
    ∧ length (collection (on_meeting_completed socket d w).2)
      = length (collection w)
    ∧ (∀ j, j ≠ k →
            collection (on_meeting_completed socket d w).2 !! j
            = collection w !! j)
    ∧ (∀ es, ∃ a'',
         collection (run es (on_meeting_completed socket d w).2) !! k = Some a''
         ∧ _id a'' = _id a ∧ createdAt a'' = createdAt a).
Proof.
  intros Hv Hnd Hopen.
  destruct (on_meeting_completed_merge socket d w u m Hv Hnd Hopen)
    as (k & a & Hk & Ha & Hrun).
  cbv zeta in Hrun.
  set (upd := completed_update d (default (now w) (data_endTime d))
                (meetingName a)) in *.
  assert (Hk' : collection (on_meeting_completed socket d w).2 !! k
                = Some (apply_update upd a)).
  { rewrite Hrun. cbn. apply list_lookup_insert_eq. by eapply lookup_lt_Some. }
  exists k, a, (apply_update upd a).
  split; [done|]. split; [done|]. split; [done|].
  do 5 (split; [done|]). split; [|split].
  - rewrite Hrun. cbn. by rewrite length_insert.
  - intros j Hj. rewrite Hrun. cbn. by apply list_lookup_insert_ne.
  - intros es.
    destruct (run_keeps_identity es _ _ _ Hk') as (a'' & Ha'' & Hid & _ & _ & _ & Hc).
    exists a''. by repeat split.
Qed.

Lemma completed_update_frame_witness :
  ∃ a',
    collection (on_meeting_completed "s2" sprint_done open_world).2 !! 0
    = Some a'
    ∧ _id a' = 0 ∧ userId a' = oid ada_id ∧ meetingId a' = "m1"
    ∧ startTime a' = Some 1700000000000%Z
    ∧ createdAt a' = 1700000000001%Z.
Proof.
  destruct (completed_update_frame "s2" sprint_done open_world
              ada_id "m1" sprint_done_valid open_world_ids open_world_session)
    as (k & a & a' & Hk & _ & Hc & Hid & Hu & Hm & Hs & Hcr & _).
  rewrite open_world_collection in Hk.
  destruct k as [|k]; [|destruct k; discriminate].
  injection Hk as <-. exists a'. by repeat split.
Defined.

(** ** The closing of a socket *)







(** * Further properties of the module *)

(** ** No exception leaves the handlers of the meeting events *)

(** X5. The listeners of 'meeting-started' and 'meeting-completed' and the
    handling of a disconnect let no exception out, whatever the data and the
    state of the server, also when the cast, the validation or the store
    refuses; 'join-user-room', whose listener has no [try], throws exactly
    when its argument cannot be turned into a string, and it has changed
    nothing then. *)
Theorem handle_returns e w :
  match e with
  | join_user_room socket v =>
      match to_string v with
      | Some _ => (handle e w).1 = Return tt
      | None =>
          handle e w
          = (Throw (TypeError "Cannot convert object to primitive value"), w)
      end
  | _ => (handle e w).1 = Return tt
  end.
Proof.
  destruct e as [socket d | socket d | socket v | socket]; cbn [handle].
  - unfold on_meeting_started, try_catch.
    by destruct (_ w) as [[[]|?] ?].
  - unfold on_meeting_completed, try_catch.
    by destruct (_ w) as [[[]|?] ?].
  - destruct (to_string v) as [s|] eqn:E.
    + by rewrite (on_join_user_room_run _ _ _ _ E).
    + by rewrite (on_join_user_room_throws _ _ _ E).
  - done.
Qed.

(** ** [updateActivity] and [createActivity] on their own *)

Lemma updateActivity_result id u w :
  update_castable u = true →
  (updateActivity id u w).1
  = Return (populate_doc w <$> (update_by_id id u (collection w)).1)
  ∧ collection (updateActivity id u w).2 = (update_by_id id u (collection w)).2
  ∧ next_oid (updateActivity id u w).2 = next_oid w
  ∧ rooms (updateActivity id u w).2 = rooms w
  ∧ emitted (updateActivity id u w).2 = emitted w
  ∧ console (updateActivity id u w).2 = console w.
Proof.
  intros Hc.
  unfold updateActivity, try_catch, findByIdAndUpdate, bind, query, populate.
  rewrite Hc. cbn -[update_by_id].
  by destruct (update_by_id id u (collection w)) as [[r|] l].
Qed.

Lemma updateActivity_uncastable id u w :
  update_castable u = false →
  updateActivity id u w
  = (Throw (CastError "userId"),
     set_console (console w ++ [console_error "Error updating activity:"]) w).
Proof.
  intros Hc. unfold updateActivity, try_catch, findByIdAndUpdate, bind.
  by rewrite Hc.
Qed.

Lemma update_by_id_other id u l j r :
  l !! j = Some r → _id r ≠ id → (update_by_id id u l).2 !! j = Some r.
Proof.
  revert j. induction l as [|c l IH]; intros j Hj Hr; [done|].
  cbn [update_by_id]. destruct (Nat.eqb (_id c) id) eqn:E.
  - apply Nat.eqb_eq in E. destruct j as [|j]; simplify_eq/=; done.
  - destruct (update_by_id id u l) as [o l'] eqn:E'.
    destruct j as [|j]; simplify_eq/=; [done|].
    by apply IH.
Qed.

(** X1. [updateActivity] with an id that no document has changes no
    document and sends no packet; when [updateData] can be cast to the
    schema it answers null: it returns normally with no document and writes
    nothing to the console. *)
Theorem updateActivity_unknown_id id u w :
  (∀ a, a ∈ collection w → _id a ≠ id) →
  collection (updateActivity id u w).2 = collection w
  ∧ emitted (updateActivity id u w).2 = emitted w
  ∧ (update_castable u = true →
     (updateActivity id u w).1 = Return None
     ∧ console (updateActivity id u w).2 = console w).
Proof.
  intros H. destruct (update_castable u) eqn:Hc.
  - destruct (updateActivity_result id u w Hc) as (Hr & Hcol & _ & _ & He & Hl).
    rewrite Hr, Hcol, Hl, He, (update_by_id_none id u _ H). done.
  - rewrite (updateActivity_uncastable id u w Hc). done.
Qed.

Lemma open_world_no_id_7 : ∀ a, a ∈ collection open_world → _id a ≠ 7.
Proof.
  rewrite open_world_collection. intros a Ha.
  apply list_elem_of_singleton in Ha. by subst a.
Defined.

Lemma updateActivity_unknown_id_witness :
  (updateActivity 7 (completed_update sprint_done 0 "x") open_world).1
  = Return None
  ∧ collection (updateActivity 7 (completed_update sprint_done 0 "x")
                  open_world).2
    = collection open_world.
Proof.
  destruct (updateActivity_unknown_id 7 (completed_update sprint_done 0 "x")
              open_world open_world_no_id_7) as (Hc & _ & Hr).
  destruct (Hr eq_refl) as [Hr' _]. by split.
Defined.

(** X2. Whatever its arguments, [updateActivity] neither adds nor removes a
    document and changes no [_id]: the ids of the collection, in order, are
    as before, and every document whose [_id] is not the given one is
    untouched. *)
Theorem updateActivity_frame id u w :
  _id <$> collection (updateActivity id u w).2 = _id <$> collection w
  ∧ length (collection (updateActivity id u w).2) = length (collection w)
  ∧ ∀ j r, collection w !! j = Some r → _id r ≠ id →
           collection (updateActivity id u w).2 !! j = Some r.
Proof.
  destruct (update_castable u) eqn:Hcast.
  - destruct (updateActivity_result id u w Hcast) as (_ & Hc & _). rewrite Hc.
    pose proof (update_by_id_ids id u (collection w)) as Hids.
    split; [done|]. split.
    + by rewrite <- (length_fmap _id), Hids, length_fmap.
    + intros j r Hj Hr. by apply update_by_id_other.
  - rewrite (updateActivity_uncastable id u w Hcast). by repeat split.
Qed.






(** X4. [createActivity] called without a user or without a meeting (the
    argument is absent or empty and [additionalData] does not supply it)
    stores nothing: the validation error is logged under 'Error creating
    activity:' and thrown again, and neither the collection nor the
    operations sent to it nor the packets sent change. *)
Theorem createActivity_rejects userId meetingId meetingName ty extra w :
  (missing userId ∧ f_userId extra = None)
  ∨ (missing meetingId ∧ f_meetingId extra = None) →
  (∃ path,
     (createActivity userId meetingId meetingName ty extra w).1
     = Throw (ValidationError path))
  ∧ collection (createActivity userId meetingId meetingName ty extra w).2
    = collection w
  ∧ queries (createActivity userId meetingId meetingName ty extra w).2
    = queries w
  ∧ emitted (createActivity userId meetingId meetingName ty extra w).2
    = emitted w
  ∧ console (createActivity userId meetingId meetingName ty extra w).2
    = (console w ++ [console_error "Error creating activity:"])%list.
Proof.
  intros H.
  unfold createActivity, try_catch, bind, new_MeetingActivity, save, validate.
  cbn -[truthy or_else castObjectId template].
  destruct (f_createdAt extra) as [t|]; cbn -[truthy or_else castObjectId template].
  all: destruct H as [[Hm He] | [Hm He]]; apply missing_falsy in Hm;
    rewrite He; cbn -[truthy or_else castObjectId template];
    rewrite ?Hm; cbn -[truthy or_else castObjectId template].
  1,3: by (split; [eexists|]).
  all: destruct (truthy (override userId (f_userId extra)));
    cbn -[truthy or_else castObjectId template]; [|by (split; [eexists|])].
  all: destruct (castObjectId _);
    cbn -[truthy or_else castObjectId template]; [|by (split; [eexists|])].
  all: rewrite ?Hm; cbn -[truthy or_else castObjectId template];
    by (split; [eexists|]).
Qed.

Lemma createActivity_rejects_witness :
  (∃ path,
     (createActivity None (Some "m1") (Some "Sprint Planning") ty_created
        empty_fields open_world).1
     = Throw (ValidationError path))
  ∧ collection (createActivity None (Some "m1") (Some "Sprint Planning")
                  ty_created empty_fields open_world).2
    = collection open_world.
Proof.
  destruct (createActivity_rejects None (Some "m1") (Some "Sprint Planning")
              ty_created empty_fields open_world)
    as (Hp & Hc & _).
  - left. split; [by left | done].
  - by split.
Defined.

(** ** Rooms *)

(** X13. Joining the room of a user twice is joining it once: the rooms
    after the second [join-user-room] of the same socket and user are the
    rooms after the first. *)
Theorem join_user_room_idempotent socket userId w :
  rooms (on_join_user_room socket userId
           (on_join_user_room socket userId w).2).2
  = rooms (on_join_user_room socket userId w).2.
Proof.
  destruct (to_string userId) as [s|] eqn:E.
  - rewrite !(on_join_user_room_run _ _ _ _ E). cbn -[user_room].
    unfold room_members. cbn -[user_room].
    rewrite lookup_insert_eq, insert_insert_eq. cbn.
    f_equal. by rewrite (assoc_L (∪)), union_idemp_L.
  - by rewrite !(on_join_user_room_throws _ _ _ E).
Qed.

(** ** What every stored record looks like *)

Lemma merged_name_nonempty name stored :
  stored ≠ "" → merged_name name stored ≠ "".
Proof.
  intros Hs. unfold merged_name. destruct name as [s|]; [|done].
  destruct (truthy (Some s)) eqn:E; [|done].
  apply truthy_Some in E. by destruct (negb _).
Qed.

Lemma or_else_nonempty v (dflt : string) : dflt ≠ "" → or_else v dflt ≠ "".
Proof. intros H. by apply truthy_Some, or_else_truthy. Qed.

Lemma update_by_id_Forall (P : MeetingActivity → Prop) id u l :
  (∀ b, P b → P (apply_update u b)) →
  Forall P l → Forall P (update_by_id id u l).2.
Proof.
  intros Hu. induction 1 as [|c l Hc Hl IH]; [done|].
  cbn [update_by_id]. destruct (Nat.eqb (_id c) id).
  - constructor; [by apply Hu | done].
  - destruct (update_by_id id u l) as [o l']. by constructor.
Qed.

Lemma completed_update_well_formed d finish stored b :
  stored ≠ "" → well_formed b →
  well_formed (apply_update (completed_update d finish stored) b).
Proof.
  intros Hs (Hu & Hm & Hn & _). unfold well_formed. cbn -[merged_name N.pow].
  repeat split; try done.
  - by apply merged_name_nonempty.
  - right. by repeat split.
Qed.

Lemma on_meeting_started_well_formed socket d w :
  Forall well_formed (collection w) →
  Forall well_formed (collection (on_meeting_started socket d w).2).
Proof.
  intros Hw. destruct (event_cases d)
    as [Hmiss | [(u & m & Hv & Hcast) | (u & m & user & Hv & Hcast)]].
  - by rewrite on_meeting_started_invalid.
  - rewrite (on_meeting_started_uncastable _ _ _ _ _ Hv Hcast).
    destruct (or_new_Date_frame (data_startTime d) w) as (Hcol & _).
    cbn. by rewrite Hcol.
  - rewrite (on_meeting_started_run _ _ _ _ _ _ Hv Hcast).
    destruct (or_new_Date_frame (data_startTime d) w) as (Hcol & _).
    destruct Hv as (_ & Hu & _ & Hm).
    cbn -[inserted]. rewrite Hcol.
    apply Forall_app. split; [done|].
    apply Forall_singleton. unfold well_formed. cbn -[or_else N.pow].
    repeat split; try done.
    + by apply (castObjectId_bound u).
    + by apply or_else_nonempty.
    + left. by repeat split.
Qed.

Lemma on_meeting_completed_well_formed socket d w :
  Forall well_formed (collection w) →
  Forall well_formed (collection (on_meeting_completed socket d w).2).
Proof.
  intros Hw. destruct (event_cases d)
    as [Hmiss | [(u & m & Hv & Hcast) | (u & m & user & Hv & Hcast)]].
  { by rewrite on_meeting_completed_invalid. }
  { by rewrite (on_meeting_completed_uncastable _ _ _ _ _ Hv Hcast). }
  destruct (searched_frame d w) as (Hcol & _).
  destruct (find (matches (open_conditions user m)) (collection w))
    as [a|] eqn:Hfind.
  - destruct (find_lookup _ _ _ Hfind) as (k & Hk & _).
    assert (Ha : a ∈ collection w) by (by eapply list_elem_of_lookup_2).
    destruct (update_by_id_elem (_id a)
                (completed_update d (default (now w) (data_endTime d))
                   (meetingName a)) (collection w))
      as (k' & b & Hk' & Hb & Hupd); [by exists a|].
    rewrite (on_meeting_completed_found _ _ _ _ _ _ _ _ _ Hv Hcast Hfind Hupd).
    cbn. replace (<[k' := _]> (collection w)) with
      (update_by_id (_id a)
         (completed_update d (default (now w) (data_endTime d)) (meetingName a))
         (collection w)).2 by (by rewrite Hupd).
    apply update_by_id_Forall; [|done].
    intros c Hc. apply completed_update_well_formed; [|done].
    rewrite Forall_forall in Hw. by destruct (Hw a Ha) as (_ & _ & Hn & _).
  - rewrite (on_meeting_completed_absent _ _ _ _ _ _ Hv Hcast Hfind).
    destruct Hv as (_ & Hu & _ & Hm).
    cbn -[inserted searched]. rewrite Hcol.
    apply Forall_app. split; [done|]. apply Forall_singleton.
    unfold well_formed. cbn -[or_else searched N.pow].
    repeat split; try done.
    + by apply (castObjectId_bound u).
    + by apply or_else_nonempty.
    + right. by repeat split.
Qed.

(** X7. On a server that started empty, whatever events arrive, every stored
    record has an ObjectId of twelve bytes as [userId], a non-empty
    [meetingId] and [meetingName], and is either open (type 'created', status
    'in-progress', a start time, no end time, no duration) or closed (type
    and status 'completed', an end time). *)
Theorem stored_records_well_formed es us clk :
  Forall well_formed (collection (run es (initial_world us clk))).
Proof.
  assert (H : ∀ w, Forall well_formed (collection w) →
                   Forall well_formed (collection (run es w))).
  { induction es as [|e es IH]; intros w Hw; [done|].
    apply IH. destruct e as [socket d | socket d | socket v | socket].
    - by apply on_meeting_started_well_formed.
    - by apply on_meeting_completed_well_formed.
    - cbn [handle].
      by destruct (on_join_user_room_frame socket v w) as (-> & _).
    - done. }
  apply H. constructor.
Qed.

(** X6. No event removes or moves a record: through any sequence of events
    the collection does not get shorter, and the record at a position stays
    at that position with its [_id], [userId], [meetingId] and
    [createdAt]. *)
Theorem records_never_deleted es w :
  (length (collection w) ≤ length (collection (run es w)))%nat
  ∧ ∀ j r, collection w !! j = Some r →
           ∃ r', collection (run es w) !! j = Some r'
                 ∧ _id r' = _id r ∧ userId r' = userId r
                 ∧ meetingId r' = meetingId r ∧ createdAt r' = createdAt r.
Proof.
  assert (Hkeep : ∀ j r, collection w !! j = Some r →
            ∃ r', collection (run es w) !! j = Some r'
                  ∧ _id r' = _id r ∧ userId r' = userId r
                  ∧ meetingId r' = meetingId r ∧ createdAt r' = createdAt r).
  { intros j r Hj.
    destruct (run_keeps_identity es w j r Hj) as (r' & Hr' & Hid & Hu & Hm & _ & Hc).
    by exists r'. }
  split; [|done].
  destruct (collection w) as [|c l] eqn:E using rev_ind; [cbn; lia|].
  clear IHl. rewrite length_app. cbn.
  destruct (Hkeep (length l) c) as (r' & Hr' & _).
  { by rewrite lookup_app_r, Nat.sub_diag. }
  apply lookup_lt_Some in Hr'. lia.
Qed.

(** ** Open sessions *)

Lemma find_first {A} (f : A → bool) (l : list A) k a :
  l !! k = Some a → f a = true →
  (∀ j b, j < k → l !! j = Some b → f b = false) →
  find f l = Some a.
Proof.
  revert k. induction l as [|c l IH]; intros k Hk Ha Hfirst; [done|].
  destruct k as [|k]; simplify_eq/=.
  - by rewrite Ha.
  - rewrite (Hfirst 0 c) by (done || lia).
    apply (IH k); [done..|]. intros j b Hj Hb. apply (Hfirst (S j) b); [lia|done].
Qed.

Lemma not_open_matches u user m b :
  castObjectId u = Some user →
  ¬ open_session u m b → matches (open_conditions user m) b = false.
Proof.
  intros Hcast Hb. destruct (matches (open_conditions user m) b) eqn:E; [|done].
  by apply (matches_open_session u user m) in E.
Qed.

(** The update path when the position of the first open session is known. *)
Lemma on_meeting_completed_first socket d w u m k a :
  valid_event d u m →
  NoDup (_id <$> collection w) →
  collection w !! k = Some a → open_session u m a →
  (∀ j b, j < k → collection w !! j = Some b → ¬ open_session u m b) →
  let upd := completed_update d (default (now w) (data_endTime d))
               (meetingName a) in
  on_meeting_completed socket d w
  = socket_to_emit socket (user_room u)
      (completed_packet (populate_doc w (apply_update upd a)))
      (after_update (_id a) upd (apply_update upd a)
         (<[k := apply_update upd a]> (collection w)) (searched d w)).
Proof.
  intros Hv Hnd Hk Ha Hfirst upd. pose proof Ha as (Hcast & _).
  apply (on_meeting_completed_found socket d w u m (userId a) a _ _ Hv Hcast);
    [|by apply update_by_id_lookup].
  apply (find_first _ _ k); [done| |].
  - by apply (matches_open_session u).
  - intros j b Hj Hb. apply (not_open_matches u); [done|].
    by apply (Hfirst j b).
Qed.

(** X9. When a user has several open sessions for one meeting, a
    'completed' event closes the first of them in the order of the
    collection, and only that one: the record at that position becomes
    'completed' under its [_id], and every other record, the later open
    sessions included, is as before. *)
Theorem completed_closes_first_open_session socket d w u m k a :
  valid_event d u m →
  NoDup (_id <$> collection w) →
  collection w !! k = Some a → open_session u m a →
  (∀ j b, j < k → collection w !! j = Some b → ¬ open_session u m b) →
  ∃ a',
    collection (on_meeting_completed socket d w).2 = <[k := a']> (collection w)
    ∧ _id a' = _id a ∧ type a' = ty_completed ∧ status a' = st_completed
    ∧ ∀ j b, j ≠ k → collection w !! j = Some b →
             collection (on_meeting_completed socket d w).2 !! j = Some b.
Proof.
  intros Hv Hnd Hk Ha Hfirst.
  rewrite (on_meeting_completed_first socket d w u m k a Hv Hnd Hk Ha Hfirst).
  eexists. split; [reflexivity|]. cbn. repeat split.
  intros j b Hj Hb. by rewrite list_lookup_insert_ne.
Qed.

Lemma double_start_collection :
  collection double_start
  = [ {| _id := 0; userId := oid ada_id; meetingId := "m1";
         meetingName := "Sprint Planning"; type := ty_created;
         status := st_in_progress; duration := None; participants := [];
         startTime := Some 1700000000000%Z; endTime := None;
         createdAt := 1700000000001%Z |};
      {| _id := 1; userId := oid ada_id; meetingId := "m1";
         meetingName := "Sprint Planning"; type := ty_created;
         status := st_in_progress; duration := None; participants := [];
         startTime := Some 1700000000002%Z; endTime := None;
         createdAt := 1700000000003%Z |} ].
Proof. reflexivity. Qed.

Lemma double_start_ids : NoDup (_id <$> collection double_start).
Proof.
  rewrite double_start_collection. cbn.
  apply NoDup_cons. split; [|apply NoDup_singleton].
  intros H. apply list_elem_of_singleton in H. discriminate.
Defined.

Lemma completed_closes_first_open_session_witness :
  ∃ a' b,
    collection (on_meeting_completed "s1" sprint_done double_start).2 = [a'; b]
    ∧ _id a' = 0 ∧ type a' = ty_completed
    ∧ _id b = 1 ∧ type b = ty_created.
Proof.
  destruct (completed_closes_first_open_session "s1" sprint_done double_start
              ada_id "m1" 0
              {| _id := 0; userId := oid ada_id; meetingId := "m1";
                 meetingName := "Sprint Planning"; type := ty_created;
                 status := st_in_progress; duration := None;
                 participants := []; startTime := Some 1700000000000%Z;
                 endTime := None; createdAt := 1700000000001%Z |})
    as (a' & Hc & Hid & Ht & _).
  - exact sprint_done_valid.
  - exact double_start_ids.
  - by rewrite double_start_collection.
  - by repeat split.
  - intros j b Hj. lia.
  - rewrite double_start_collection in Hc. cbn in Hc.
    eexists a', _. split; [exact Hc|]. by repeat split.
Defined.

(** X10. A 'started' event followed by a 'completed' event of the same user
    and meeting, on a server that holds no open session for them, leaves
    exactly one more record: the one the start created, now 'completed', with
    the start time of the start and the duration of the completion.  Its
    name is the name of the completion when that is non-empty and is not
    'Meeting Room'; otherwise it is the name of the start, or 'Unnamed
    Meeting' when the start had none. *)
Theorem started_then_completed s1 s2 d1 d2 w u m user :
  valid_event d1 u m → valid_event d2 u m → castObjectId u = Some user →
  ids_unique w →
  (∀ r, r ∈ collection w → ¬ open_session u m r) →
  ∃ a,
    collection (run [meeting_started s1 d1; meeting_completed s2 d2] w)
    = (collection w ++ [a])%list
    ∧ _id a = next_oid w ∧ userId a = user ∧ meetingId a = m
    ∧ type a = ty_completed ∧ status a = st_completed
    ∧ startTime a = Some (default (now w) (data_startTime d1))
    ∧ duration a = data_duration d2
    ∧ (∀ n, data_meetingName d2 = Some n → n ≠ "" → n ≠ "Meeting Room" →
            meetingName a = n)
    ∧ (data_meetingName d2 = None ∨ data_meetingName d2 = Some ""
       ∨ data_meetingName d2 = Some "Meeting Room" →
       (∀ n, data_meetingName d1 = Some n → n ≠ "" → meetingName a = n)
       ∧ (data_meetingName d1 = None ∨ data_meetingName d1 = Some "" →
          meetingName a = "Unnamed Meeting")).
Proof.
  intros Hv1 Hv2 Hcast Hids Hnone. cbn [run fold_left handle].
  set (w1 := (on_meeting_started s1 d1 w).2).
  destruct (collection_step_ids_unique w w1 (on_meeting_started_step s1 d1 w) Hids)
    as [Hnd1 _].
  destruct (or_new_Date_frame (data_startTime d1) w) as (Hc0 & _ & Hoid & _).
  set (w0 := (or_new_Date (data_startTime d1) w).2) in *.
  set (a0 := inserted user m (data_meetingName d1) ty_created
               (started_extra (default (now w) (data_startTime d1))) w0).
  assert (Hc1 : collection w1 = (collection w ++ [a0])%list).
  { subst w1. rewrite (on_meeting_started_run _ _ _ _ _ _ Hv1 Hcast).
    cbn -[inserted]. fold w0. by rewrite Hc0. }
  assert (Hk : collection w1 !! length (collection w) = Some a0).
  { rewrite Hc1, lookup_app_r, Nat.sub_diag; done. }
  assert (Ha0 : open_session u m a0) by done.
  assert (Hfirst : ∀ j b, j < length (collection w) →
            collection w1 !! j = Some b → ¬ open_session u m b).
  { intros j b Hj Hb. rewrite Hc1, lookup_app_l in Hb by done.
    apply Hnone. by eapply list_elem_of_lookup_2. }
  rewrite (on_meeting_completed_first s2 d2 w1 u m _ a0 Hv2 Hnd1 Hk Ha0 Hfirst).
  cbn -[merged_name or_else]. rewrite Hc1.
  rewrite insert_app_r_alt by done. rewrite Nat.sub_diag.
  eexists. split; [reflexivity|].
  cbn -[merged_name or_else]. rewrite Hoid, override_None_l.
  do 7 (split; [done|]). split.
  - intros n -> Hn Hroom. unfold merged_name.
    apply truthy_Some in Hn as ->. by apply String.eqb_neq in Hroom as ->.
  - intros H2.
    assert (Hkeep : merged_name (data_meetingName d2)
                      (or_else (data_meetingName d1) "Unnamed Meeting")
                    = or_else (data_meetingName d1) "Unnamed Meeting")
      by (by destruct H2 as [-> | [-> | ->]]).
    rewrite Hkeep. split.
    + intros n -> Hn. by apply or_else_supplied.
    + intros H1. by apply or_else_missing.
Qed.

Lemma started_then_completed_witness :
  ∃ a,
    collection (run [meeting_started "s1" sprint_planning;
                     meeting_completed "s2" sprint_done] fresh_server) = [a]
    ∧ type a = ty_completed ∧ status a = st_completed
    ∧ duration a = Some 30%Z ∧ meetingName a = "Sprint Planning".
Proof.
  destruct (started_then_completed "s1" "s2" sprint_planning sprint_done
              fresh_server ada_id "m1" (oid ada_id))
    as (a & Hc & _ & _ & _ & Ht & Hs & _ & Hd & _ & Hn).
  - exact sprint_planning_valid.
  - exact sprint_done_valid.
  - exact ada_id_cast.
  - apply ids_unique_initial.
  - apply initial_world_no_session.
  - exists a. repeat split; try done.
    destruct Hn as [Hn _]; [by left|]. by apply (Hn "Sprint Planning").
Defined.

Section counting.

Context (P : MeetingActivity → Prop) `{∀ x, Decision (P x)}.

Lemma filter_none (l : list MeetingActivity) :
  (∀ x, x ∈ l → ¬ P x) → filter P l = [].
Proof.
  induction l as [|c l IH]; intros Hl; [done|].
  rewrite filter_cons_False by (apply Hl, list_elem_of_here).
  apply IH. intros x Hx. apply Hl. by apply list_elem_of_further.
Qed.

Lemma length_filter_insert (l : list MeetingActivity) k a a' :
  l !! k = Some a → ¬ P a' →
  length (filter P (<[k := a']> l))
  = if decide (P a) then pred (length (filter P l)) else length (filter P l).
Proof.
  intros Hk Ha'.
  rewrite insert_take_drop by (by eapply lookup_lt_Some).
  assert (Hl : length (filter P l)
               = length (filter P (take k l ++ a :: drop (S k) l)%list))
    by (by rewrite take_drop_middle).
  rewrite Hl, !filter_app, !length_app, (filter_cons_False _ a') by done.
  case_decide as Ha.
  - rewrite filter_cons_True by done. cbn. lia.
  - by rewrite filter_cons_False.
Qed.
End counting.

(** X8. Open sessions are counted: a valid 'started' event whose [userId]
    writes an ObjectId adds one open session for its user and meeting, a
    valid 'completed' event takes one away if there is one and adds none if
    there is none, and neither changes the number of open sessions of any
    other user or meeting. *)
Theorem open_sessions_counted socket d w u m user :
  valid_event d u m → castObjectId u = Some user →
  NoDup (_id <$> collection w) →
  open_count user m (collection (on_meeting_started socket d w).2)
  = S (open_count user m (collection w))
  ∧ open_count user m (collection (on_meeting_completed socket d w).2)
    = pred (open_count user m (collection w))
  ∧ ∀ user' m', (user', m') ≠ (user, m) →
      open_count user' m' (collection (on_meeting_started socket d w).2)
      = open_count user' m' (collection w)
      ∧ open_count user' m' (collection (on_meeting_completed socket d w).2)
        = open_count user' m' (collection w).
Proof.
  intros Hv Hcast Hnd.
  assert (Hstart : ∃ a, collection (on_meeting_started socket d w).2
                        = (collection w ++ [a])%list ∧ open_for user m a).
  { rewrite (on_meeting_started_run _ _ _ _ _ _ Hv Hcast).
    destruct (or_new_Date_frame (data_startTime d) w) as (Hcol & _).
    eexists. split; [cbn -[inserted]; by rewrite Hcol | done]. }
  destruct Hstart as (a0 & Hc0 & Ha0).
  assert (Hdone :
    (∃ k a a', collection w !! k = Some a ∧ open_for user m a
               ∧ type a' = ty_completed
               ∧ collection (on_meeting_completed socket d w).2
                 = <[k := a']> (collection w))
    ∨ (∃ a', (∀ r, r ∈ collection w → ¬ open_for user m r)
             ∧ type a' = ty_completed
             ∧ collection (on_meeting_completed socket d w).2
               = (collection w ++ [a'])%list)).
  { destruct (find (matches (open_conditions user m)) (collection w))
      as [a|] eqn:Hfind.
    - left. destruct (find_lookup _ _ _ Hfind) as (k & Hk & Hmatch).
      apply matches_open_conditions in Hmatch.
      exists k, a,
        (apply_update
           (completed_update d (default (now w) (data_endTime d))
              (meetingName a)) a).
      split; [done|]. split; [done|].
      rewrite (on_meeting_completed_found socket d w u m user a _ _ Hv Hcast
                 Hfind (update_by_id_lookup _ _ _ _ Hnd Hk)).
      by split.
    - right. destruct (searched_frame d w) as (Hcol & _).
      rewrite (on_meeting_completed_absent _ _ _ _ _ _ Hv Hcast Hfind).
      exists (inserted user m (data_meetingName d) ty_completed
                (completed_extra d (default (now w) (data_endTime d)))
                (searched d w)).
      split; [|split].
      + intros r Hr Hopen. apply matches_open_conditions in Hopen.
        apply list_elem_of_In in Hr.
        pose proof (find_none _ _ Hfind r Hr). congruence.
      + reflexivity.
      + cbn -[inserted searched]. by rewrite Hcol. }
  unfold open_count. split; [|split].
  - rewrite Hc0, filter_app, length_app.
    rewrite (filter_singleton_True _ a0 []) by done. cbn. lia.
  - destruct Hdone as [(k & a & a' & Hk & Ha & Ha' & ->) | (a' & Hnone & Ha' & ->)].
    + rewrite (length_filter_insert _ _ k a a' Hk).
      * by rewrite decide_True.
      * intros (_ & _ & Ht). congruence.
    + rewrite filter_app, length_app, (filter_none _ _ Hnone).
      rewrite (filter_singleton_False _ a' []); [done|].
      intros (_ & _ & Ht). congruence.
  - intros user' m' Hne. split.
    + rewrite Hc0, filter_app, length_app.
      rewrite (filter_singleton_False _ a0 []); [cbn; lia|].
      intros (Hu' & Hm' & _). destruct Ha0 as (Hu0 & Hm0 & _). congruence.
    + destruct Hdone as [(k & a & a' & Hk & Ha & Ha' & ->) | (a' & Hnone & Ha' & ->)].
      * rewrite (length_filter_insert _ _ k a a' Hk).
        -- rewrite decide_False; [done|].
           intros (Hu' & Hm' & _). destruct Ha as (Hu0 & Hm0 & _). congruence.
        -- intros (_ & _ & Ht). congruence.
      * rewrite filter_app, length_app.
        rewrite (filter_singleton_False _ a' []); [cbn; lia|].
        intros (_ & _ & Ht). congruence.
Qed.

Lemma open_sessions_counted_witness :
  open_count (oid ada_id) "m1" (collection open_world) = 1
  ∧ open_count (oid ada_id) "m1"
      (collection (on_meeting_started "s2" sprint_planning open_world).2) = 2
  ∧ open_count (oid ada_id) "m1"
      (collection (on_meeting_completed "s2" sprint_planning open_world).2) = 0.
Proof.
  assert (H1 : open_count (oid ada_id) "m1" (collection open_world) = 1)
    by (by rewrite open_world_collection).
  destruct (open_sessions_counted "s2" sprint_planning open_world ada_id "m1"
              (oid ada_id) sprint_planning_valid ada_id_cast open_world_ids)
    as (Hs & Hc & _).
  rewrite Hs, Hc, H1. done.
Defined.



(** ** Where packets go *)








(** ** Numbers *)

Section numbers.

#[local] Open Scope Z_scope.

Lemma to_double_small z : Z.abs z < 2 ^ 53 → to_double z = Finite z.
Proof.
  intros H. unfold to_double. apply Z.ltb_lt in H. by rewrite H.
Qed.

Lemma ceil_div_bounds total limit :
  0 < limit → total ≤ ceil_div total limit * limit < total + limit.
Proof.
  intros Hl. unfold ceil_div.
  pose proof (Z.mul_div_le (- total) limit Hl).
  pose proof (Z.mul_succ_div_gt (- total) limit Hl).
  nia.
Qed.

Lemma ceil_div_unique x y c :
  0 < y → (c - 1) * y < x ≤ c * y → ceil_div x y = c.
Proof.
  intros Hy Hc. unfold ceil_div.
  assert (H : (- x) / y = - c).
  { symmetry. apply (Z.div_unique_pos (- x) y (- c) (c * y - x)); lia. }
  lia.
Qed.

(** [log2_quotient a b] is the exponent of the power of two at or below
    [a / b]. *)
Lemma log2_quotient_spec a b :
  0 < a → 0 < b →
  b * 2 ^ Z.max 0 (log2_quotient a b) ≤ a * 2 ^ Z.max 0 (- log2_quotient a b)
  ∧ Z.log2 a - Z.log2 b - 1 ≤ log2_quotient a b ≤ Z.log2 a - Z.log2 b.
Proof.
  intros Ha Hb. unfold log2_quotient.
  destruct (Z.log2_spec a Ha) as [Ha1 Ha2].
  destruct (Z.log2_spec b Hb) as [Hb1 Hb2].
  pose proof (Z.log2_nonneg a) as Hla. pose proof (Z.log2_nonneg b) as Hlb.
  set (la := Z.log2 a) in *. set (lb := Z.log2 b) in *.
  rewrite <- Z.add_1_r in Ha2, Hb2.
  rewrite Z.pow_add_r in Ha2, Hb2 by lia. change (2 ^ 1) with 2 in *.
  destruct (_ <? _) eqn:E.
  - split; [|lia]. clear E.
    destruct (Z_le_gt_dec 1 (la - lb)) as [Hl | Hl].
    + rewrite (Z.max_r 0 (la - lb - 1)), (Z.max_l 0 (- (la - lb - 1))) by lia.
      rewrite Z.pow_0_r, Z.mul_1_r.
      assert (Hp : 2 ^ la = 2 ^ lb * 2 * 2 ^ (la - lb - 1)).
      { replace (2 ^ la) with (2 ^ (lb + 1 + (la - lb - 1))) by (f_equal; lia).
        by rewrite !Z.pow_add_r by lia. }
      assert (0 < 2 ^ (la - lb - 1)) by (apply Z.pow_pos_nonneg; lia).
      nia.
    + rewrite (Z.max_l 0 (la - lb - 1)), (Z.max_r 0 (- (la - lb - 1))) by lia.
      rewrite Z.pow_0_r, Z.mul_1_r.
      assert (Hp : 2 ^ la * 2 ^ (- (la - lb - 1)) = 2 ^ lb * 2).
      { rewrite <- Z.pow_add_r by lia.
        replace (la + - (la - lb - 1)) with (lb + 1) by lia.
        by rewrite Z.pow_add_r by lia. }
      assert (0 < 2 ^ (- (la - lb - 1))) by (apply Z.pow_pos_nonneg; lia).
      nia.
  - split; [|lia]. apply Z.ltb_ge in E.
    destruct (Z_le_gt_dec 0 (la - lb)) as [Hl | Hl].
    + rewrite (Z.max_r 0 (la - lb)), (Z.max_l 0 (- (la - lb))) in * by lia.
      done.
    + rewrite (Z.max_l 0 (la - lb)), (Z.max_r 0 (- (la - lb))) in * by lia.
      done.
Qed.

(** Below 2^53 the rounding of the quotient does not reach the next whole
    number: the ceiling of the quotient of the doubles is the ceiling of the
    quotient. *)
Lemma double_quotient_ceil a b :
  0 < a < 2 ^ 53 → 1 ≤ b ≤ 2 ^ 53 →
  dyadic_ceil (double_quotient a b) = ceil_div a b.
Proof.
  intros [Ha Ha53] [Hb Hb53].
  destruct (log2_quotient_spec a b) as (Hlow & HL1 & HL2); [lia..|].
  assert (Hla : 0 ≤ Z.log2 a < 53).
  { split; [apply Z.log2_nonneg|]. by apply Z.log2_lt_pow2. }
  assert (Hlb : 0 ≤ Z.log2 b ≤ 53).
  { split; [apply Z.log2_nonneg|].
    change 53 with (Z.log2 (2 ^ 53)). by apply Z.log2_le_mono. }
  unfold double_quotient. set (L := log2_quotient a b) in *.
  rewrite (Z.max_l (L - 52) (-1074)) by lia.
  rewrite (Z.max_l 0 (L - 52)), (Z.max_r 0 (- (L - 52))) by lia.
  rewrite Z.pow_0_r, Z.mul_1_r.
  set (s := - (L - 52)). assert (Hs : 0 ≤ s) by lia.
  set (S := 2 ^ s). assert (HS : 0 < S) by (apply Z.pow_pos_nonneg; lia).
  assert (HF : 2 ^ 52 * b ≤ a * S).
  { subst S s. destruct (Z_le_gt_dec 0 L) as [HL | HL].
    - rewrite (Z.max_r 0 L), (Z.max_l 0 (- L)), Z.pow_0_r, Z.mul_1_r in Hlow by lia.
      replace (2 ^ 52) with (2 ^ L * 2 ^ (- (L - 52)))
        by (rewrite <- Z.pow_add_r by lia; f_equal; lia).
      assert (0 < 2 ^ (- (L - 52))) by (apply Z.pow_pos_nonneg; lia).
      nia.
    - rewrite (Z.max_l 0 L), (Z.max_r 0 (- L)), Z.pow_0_r, Z.mul_1_r in Hlow by lia.
      replace (2 ^ (- (L - 52))) with (2 ^ (- L) * 2 ^ 52)
        by (rewrite <- Z.pow_add_r by lia; f_equal; lia).
      nia. }
  assert (H2S : b < 2 * S) by nia.
  pose proof (ceil_div_bounds a b ltac:(lia)) as Hc.
  set (c := ceil_div a b) in *.
  pose proof (Z.div_mod (a * S) b ltac:(lia)) as Hdm.
  pose proof (Z.mod_pos_bound (a * S) b ltac:(lia)) as Hr.
  set (m0 := a * S / b) in *. set (r := (a * S) mod b) in *.
  set (m := if (b <? 2 * r) || ((2 * r =? b) && Z.odd m0) then m0 + 1 else m0).
  assert (Hm : (c - 1) * S < m ≤ c * S).
  { subst m. destruct ((b <? 2 * r) || ((2 * r =? b) && Z.odd m0)) eqn:E.
    - apply orb_true_iff in E as [E | E].
      + apply Z.ltb_lt in E. nia.
      + apply andb_true_iff in E as [E _]. apply Z.eqb_eq in E. nia.
    - apply orb_false_iff in E as [E _]. apply Z.ltb_ge in E. nia. }
  unfold dyadic_ceil. cbn [fst snd].
  destruct (0 <=? L - 52) eqn:E.
  - apply Z.leb_le in E. assert (s = 0) as Hs0 by lia.
    subst S. rewrite Hs0 in *. change (2 ^ 0) with 1 in *.
    replace (L - 52) with 0 by lia. change (2 ^ 0) with 1. lia.
  - fold s. fold S. symmetry. subst c.
    change (- (- m / S)) with (ceil_div m S).
    rewrite (ceil_div_unique m S (ceil_div a b)); [done | lia | done].
Qed.

Lemma ceil_quotient_exact t l :
  0 ≤ t < 2 ^ 53 → 1 ≤ l ≤ 2 ^ 53 →
  ceil_quotient t (Finite l) = Finite (ceil_div t l).
Proof.
  intros Ht Hl. unfold ceil_quotient. rewrite to_double_small by lia.
  assert ((l =? 0) = false) as -> by (apply Z.eqb_neq; lia).
  destruct (t =? 0) eqn:E.
  - apply Z.eqb_eq in E. subst t. unfold ceil_div. cbn. by rewrite Z.div_0_l by lia.
  - apply Z.eqb_neq in E.
    assert ((t <? 0) = false) as -> by (apply Z.ltb_ge; lia).
    assert ((l <? 0) = false) as -> by (apply Z.ltb_ge; lia).
    cbn [Bool.eqb]. rewrite !Z.abs_eq by lia.
    by rewrite double_quotient_ceil by lia.
Qed.

(** The skip of page [p] of [l] items, below 2^53, is computed without
    rounding. *)
Lemma skip_exact p l :
  1 ≤ p → 1 ≤ l → p * l ≤ 2 ^ 53 →
  num_mul (num_sub (Finite p) (Finite 1)) (Finite l) = Finite ((p - 1) * l).
Proof.
  intros Hp Hl Hpl. cbn [num_sub]. rewrite to_double_small by nia.
  cbn [num_mul]. rewrite to_double_small by nia. done.
Qed.

Lemma to_int64_small z : 0 ≤ z ≤ 2 ^ 53 → to_int64 (Finite z) = z.
Proof. intros H. unfold to_int64. lia. Qed.

Lemma limit_to_take {A} l (docs : list A) :
  1 ≤ l ≤ 2 ^ 53 → limit_to (Finite l) docs = take (Z.to_nat l) docs.
Proof.
  intros H. unfold limit_to. rewrite to_int64_small by lia. cbn [is_negative].
  assert ((l <? 0) = false) as -> by (apply Z.ltb_ge; lia).
  rewrite Z.abs_eq by lia.
  assert ((l =? 0) = false) as -> by (apply Z.eqb_neq; lia). done.
Qed.
End numbers.

(** ** The HTTP routes *)

#[global] Instance newer_first_trans : Transitive newer_first.
Proof. unfold newer_first. intros a b c Hab Hbc. lia. Qed.

#[global] Instance newer_first_total : Total newer_first.
Proof. unfold newer_first. intros a b. lia. Qed.

Lemma cast_user_filter u user :
  castObjectId u = Some user →
  cast_filter (user_filter (Some u)) = inr (user_conditions user).
Proof. intros H. unfold cast_filter, user_filter. cbn. by rewrite H. Qed.

Lemma matches_user_conditions user a :
  matches (user_conditions user) a = bool_decide (userId a = user).
Proof.
  unfold matches, user_conditions. cbn. rewrite !andb_true_r.
  apply bool_decide_ext. split; congruence.
Qed.

Lemma filter_user_conditions user l :
  List.filter (matches (user_conditions user)) l
  = filter (λ a, userId a = user) l.
Proof.
  induction l as [|c l IH]; [done|]. cbn [List.filter].
  rewrite matches_user_conditions, filter_cons, IH.
  case_bool_decide; by case_decide.
Qed.

Lemma find_sorted_Permutation user w :
  find_sorted (user_conditions user) w ≡ₚ activities_of user w.
Proof.
  unfold find_sorted, activities_of.
  by rewrite merge_sort_Permutation, filter_user_conditions.
Qed.

Lemma find_sorted_StronglySorted q w :
  StronglySorted newer_first (find_sorted q w).
Proof. apply StronglySorted_merge_sort; apply _. Qed.

Lemma authenticated_truthy req u :
  authenticated req u →
  truthy (or_value (session_userId req) (user__id req)) = true.
Proof. intros [-> Hu]. by apply truthy_Some. Qed.

Lemma get_recent_activities_run req w u user :
  authenticated req u → castObjectId u = Some user →
  get_recent_activities req w
  = (Return {| res_status := 200;
               res_json :=
                 json_activities
                   (format_activity
                    <$> (populate_doc w
                         <$> take 10 (find_sorted (user_conditions user) w))) |},
     w).
Proof.
  intros Ha Hcast. pose proof (authenticated_truthy _ _ Ha) as Ht.
  destruct Ha as [Hu _].
  unfold get_recent_activities, try_catch. cbv zeta. rewrite Ht, Hu.
  cbn [negb]. unfold bind, find_query.
  by rewrite (cast_user_filter u user Hcast).
Qed.

Lemma get_activities_run req w u user p l :
  authenticated req u → castObjectId u = Some user →
  parseInt_or (query_page req) 1 = Finite p →
  parseInt_or (query_limit req) 20 = Finite l →
  (1 ≤ p)%Z → (1 ≤ l)%Z → (p * l ≤ 2 ^ 53)%Z →
  get_activities req w
  = (Return {| res_status := 200;
               res_json :=
                 json_page
                   (format_activity
                    <$> (populate_doc w
                         <$> take (Z.to_nat l)
                               (drop (Z.to_nat ((p - 1) * l))
                                  (find_sorted (user_conditions user) w))))
                   (Finite p) (Finite l)
                   (to_double (Z.of_nat (length (activities_of user w))))
                   (ceil_quotient (Z.of_nat (length (activities_of user w)))
                      (Finite l)) |},
     w).
Proof.
  intros Ha Hcast Hpage Hlimit Hp Hl Hpl.
  pose proof (authenticated_truthy _ _ Ha) as Ht. destruct Ha as [Hu _].
  unfold get_activities, try_catch. cbv zeta. rewrite Ht, Hu, Hpage, Hlimit.
  cbn [negb]. rewrite (skip_exact p l Hp Hl Hpl).
  unfold bind, find_query, countDocuments, ret.
  rewrite (cast_user_filter u user Hcast).
  unfold default; cbn [from_option id].
  rewrite to_int64_small by nia.
  assert (Hskip : ((p - 1) * l <? 0)%Z = false) by (apply Z.ltb_ge; nia).
  rewrite Hskip, limit_to_take by nia.
  by rewrite filter_user_conditions.
Qed.

Lemma activities_of_user user w a : a ∈ activities_of user w → userId a = user.
Proof. unfold activities_of. rewrite list_elem_of_filter. by intros [? _]. Qed.

Lemma format_activity_checked w user (docs : list MeetingActivity) v :
  (∀ a, a ∈ docs → userId a = user) →
  v ∈ format_activity <$> (populate_doc w <$> docs) →
  v_userId v = find_user w user ∧ v_meetingName v ≠ "".
Proof.
  intros Hdocs Hv. apply list_elem_of_fmap in Hv as (x & -> & Hx).
  apply list_elem_of_fmap in Hx as (a & -> & Ha).
  split; [cbn; by rewrite (Hdocs a Ha)|].
  cbn -[or_else]. by apply or_else_nonempty.
Qed.

(** X14. Both routes refuse a request that carries no identity: when
    neither the session nor [req.user] gives a user id, the answer is 401
    'Not authenticated', and nothing is read, written or logged. *)
Theorem routes_require_identity req w :
  missing (session_userId req) → missing (user__id req) →
  get_recent_activities req w = (Return not_authenticated, w)
  ∧ get_activities req w = (Return not_authenticated, w).
Proof.
  intros Hs Hu. apply missing_falsy in Hs, Hu.
  unfold get_recent_activities, get_activities, try_catch, or_value.
  cbv zeta. by rewrite Hs, Hu.
Qed.

Lemma routes_require_identity_witness :
  get_recent_activities
    {| session_userId := None; user__id := Some "";
       query_page := Some "1"; query_limit := None |} busy_world
  = (Return not_authenticated, busy_world)
  ∧ get_activities
      {| session_userId := None; user__id := Some "";
         query_page := Some "1"; query_limit := None |} busy_world
    = (Return not_authenticated, busy_world).
Proof.
  apply routes_require_identity; [by left | by right].
Defined.

(** X15. For a signed-in user whose id writes an ObjectId,
    '/api/recent-activities' answers 200 with the ten newest activities of
    that user, newest first (all of them when there are fewer than ten):
    every activity in the answer is the user's own, populated with the user's
    document, and carries a non-empty name, and no activity of the user that
    is left out is newer than one that is in. *)
Theorem recent_activities_are_newest req w u user :
  authenticated req u → castObjectId u = Some user →
  ∃ docs rest,
    get_recent_activities req w
    = (Return {| res_status := 200;
                 res_json :=
                   json_activities
                     (format_activity <$> (populate_doc w <$> docs)) |}, w)
    ∧ (docs ++ rest)%list ≡ₚ activities_of user w
    ∧ length docs = min 10 (length (activities_of user w))
    ∧ StronglySorted newer_first docs
    ∧ (∀ a r, a ∈ docs → r ∈ rest → (createdAt r ≤ createdAt a)%Z)
    ∧ (∀ v, v ∈ format_activity <$> (populate_doc w <$> docs) →
            v_userId v = find_user w user ∧ v_meetingName v ≠ "").
Proof.
  intros Ha Hcast. rewrite (get_recent_activities_run req w u user Ha Hcast).
  set (L := find_sorted (user_conditions user) w).
  pose proof (find_sorted_Permutation user w) as Hperm. fold L in Hperm.
  pose proof (find_sorted_StronglySorted (user_conditions user) w) as Hsort.
  fold L in Hsort. rewrite <- (take_drop 10 L) in Hsort.
  exists (take 10 L), (drop 10 L). split; [done|]. split; [|split; [|split; [|split]]].
  - by rewrite take_drop.
  - by rewrite length_take, Hperm.
  - by eapply StronglySorted_app_1_l.
  - intros a r Ha' Hr. by apply (StronglySorted_app_1_elem_of _ _ _ _ _ Hsort).
  - intros v. apply format_activity_checked. intros a Ha'.
    apply (activities_of_user user w). rewrite <- Hperm.
    by apply (subseteq_take 10 L).
Qed.

Lemma page_request_authenticated page limit :
  authenticated (page_request page limit) ada_id.
Proof. by split. Defined.

Lemma recent_activities_are_newest_witness :
  ∃ docs rest,
    get_recent_activities (page_request None None) busy_world
    = (Return {| res_status := 200;
                 res_json :=
                   json_activities
                     (format_activity <$> (populate_doc busy_world <$> docs)) |},
       busy_world)
    ∧ (docs ++ rest)%list ≡ₚ activities_of (oid ada_id) busy_world
    ∧ length docs = min 10 (length (activities_of (oid ada_id) busy_world)).
Proof.
  destruct (recent_activities_are_newest (page_request None None) busy_world
              ada_id (oid ada_id) (page_request_authenticated None None)
              ada_id_cast)
    as (docs & rest & Hr & Hp & Hl & _).
  by exists docs, rest.
Defined.

(** X16. For a signed-in user whose id writes an ObjectId, and a page
    number [p] and a page size [l] that are whole numbers of at least one
    with [p * l] at most 2^53, '/api/activities' answers 200 with one page of
    the user's activities in newest-first order: the activities of the user
    fall into those before the page, the page and those after it, in that
    order from newest to oldest; [(p - 1) * l] activities come before the
    page (all of them when there are fewer), and the page holds [l]
    activities or what is left of them. *)
Theorem activities_page_contents req w u user p l :
  authenticated req u → castObjectId u = Some user →
  parseInt_or (query_page req) 1 = Finite p →
  parseInt_or (query_limit req) 20 = Finite l →
  (1 ≤ p)%Z → (1 ≤ l)%Z → (p * l ≤ 2 ^ 53)%Z →
  ∃ before docs after,
    body_activities <$> answer (get_activities req w)
    = Some (format_activity <$> (populate_doc w <$> docs))
    ∧ (before ++ docs ++ after)%list ≡ₚ activities_of user w
    ∧ StronglySorted newer_first (before ++ docs ++ after)
    ∧ length before
      = min (Z.to_nat ((p - 1) * l)) (length (activities_of user w))
    ∧ length docs
      = min (Z.to_nat l) (length (activities_of user w) - length before)
    ∧ (∀ v, v ∈ format_activity <$> (populate_doc w <$> docs) →
            v_userId v = find_user w user ∧ v_meetingName v ≠ "").
Proof.
  intros Ha Hcast Hpage Hlimit Hp Hl Hpl.
  rewrite (get_activities_run req w u user p l Ha Hcast Hpage Hlimit Hp Hl Hpl).
  set (L := find_sorted (user_conditions user) w).
  set (n := Z.to_nat l). set (k := Z.to_nat ((p - 1) * l)).
  pose proof (find_sorted_Permutation user w) as Hperm. fold L in Hperm.
  pose proof (find_sorted_StronglySorted (user_conditions user) w) as Hsort.
  fold L in Hsort.
  assert (HL : (take k L ++ take n (drop k L) ++ drop n (drop k L))%list = L)
    by (by rewrite (take_drop n), (take_drop k)).
  exists (take k L), (take n (drop k L)), (drop n (drop k L)).
  split; [done|]. rewrite HL, <- Hperm.
  split; [done|]. split; [done|]. split; [|split].
  - by rewrite length_take.
  - rewrite !length_take, length_drop. lia.
  - intros v. apply format_activity_checked. intros a Ha'.
    apply (activities_of_user user w). rewrite <- Hperm.
    by apply (subseteq_drop k L), (subseteq_take n (drop k L)).
Qed.

Lemma activities_page_contents_witness :
  ∃ docs,
    body_activities <$> answer (get_activities
                                  (page_request (Some "2") (Some "2"))
                                  busy_world)
    = Some (format_activity <$> (populate_doc busy_world <$> docs))
    ∧ length docs = 1.
Proof.
  destruct (activities_page_contents (page_request (Some "2") (Some "2"))
              busy_world ada_id (oid ada_id) 2 2
              (page_request_authenticated _ _) ada_id_cast)
    as (before & docs & after & Hr & _ & _ & Hb & Hd & _).
  - reflexivity.
  - reflexivity.
  - lia.
  - lia.
  - by vm_compute.
  - exists docs. split; [exact Hr|]. rewrite Hd, Hb. reflexivity.
Defined.

(** X17. The pagination that '/api/activities' reports is that of the
    user's activities: [total] is their number, [page] and [limit] are the
    numbers that [parseInt] read, [pages] is the least number of pages of
    [limit] items that hold [total] items, and the page that is sent is empty
    exactly when it lies after the last page.  This is for a page number and
    a page size of at least one whose product is at most 2^53, and for fewer
    than 2^53 activities. *)
Theorem activities_pagination req w u user p l :
  authenticated req u → castObjectId u = Some user →
  parseInt_or (query_page req) 1 = Finite p →
  parseInt_or (query_limit req) 20 = Finite l →
  (1 ≤ p)%Z → (1 ≤ l)%Z → (p * l ≤ 2 ^ 53)%Z →
  (Z.of_nat (length (activities_of user w)) < 2 ^ 53)%Z →
  ∃ items pages,
    answer (get_activities req w)
    = Some {| res_status := 200;
              res_json :=
                json_page items (Finite p) (Finite l)
                  (Finite (Z.of_nat (length (activities_of user w))))
                  (Finite pages) |}
    ∧ (Z.of_nat (length (activities_of user w)) ≤ pages * l
       < Z.of_nat (length (activities_of user w)) + l)%Z
    ∧ (items = [] ↔ (pages < p)%Z).
Proof.
  intros Ha Hcast Hpage Hlimit Hp Hl Hpl Htotal.
  rewrite (get_activities_run req w u user p l Ha Hcast Hpage Hlimit Hp Hl Hpl).
  set (L := find_sorted (user_conditions user) w).
  pose proof (find_sorted_Permutation user w) as Hperm. fold L in Hperm.
  apply Permutation_length in Hperm.
  rewrite to_double_small by lia.
  rewrite ceil_quotient_exact by nia.
  pose proof (ceil_div_bounds (Z.of_nat (length (activities_of user w))) l)
    as Hceil.
  eexists _, _. split; [reflexivity|]. split; [apply Hceil; lia|].
  rewrite <- length_zero_iff_nil, !length_fmap, length_take, length_drop, Hperm.
  specialize (Hceil ltac:(lia)).
  set (total := length (activities_of user w)) in *.
  set (pages := ceil_div (Z.of_nat total) l) in *.
  split; intros H; nia.
Qed.

Lemma activities_pagination_witness :
  ∃ items,
    answer (get_activities (page_request (Some "2") (Some "2")) busy_world)
    = Some {| res_status := 200;
              res_json :=
                json_page items (Finite 2) (Finite 2) (Finite 3) (Finite 2) |}.
Proof.
  destruct (activities_pagination (page_request (Some "2") (Some "2"))
              busy_world ada_id (oid ada_id) 2 2
              (page_request_authenticated _ _) ada_id_cast)
    as (items & pages & Hr & Hpages & _).
  - reflexivity.
  - reflexivity.
  - lia.
  - lia.
  - by vm_compute.
  - by vm_compute.
  - exists items. rewrite Hr. repeat f_equal.
    change (Z.of_nat (length (activities_of (oid ada_id) busy_world)))
      with 3%Z in Hpages.
    lia.
Defined.

(** X18. A [page] or [limit] that is absent, that does not start with a
    number, or that is zero, counts as page 1 and as a limit of 20: the
    request is answered as the same request with [page=1] and [limit=20]
    written out. *)
Theorem activities_defaults req w :
  (parseInt (query_page req) = NaN ∨ parseInt (query_page req) = Finite 0) →
  (parseInt (query_limit req) = NaN ∨ parseInt (query_limit req) = Finite 0) →
  get_activities req w
  = get_activities
      {| session_userId := session_userId req; user__id := user__id req;
         query_page := Some "1"; query_limit := Some "20" |} w.
Proof.
  intros Hp Hl.
  assert (Hp' : parseInt_or (query_page req) 1 = Finite 1)
    by (unfold parseInt_or; by destruct Hp as [-> | ->]).
  assert (Hl' : parseInt_or (query_limit req) 20 = Finite 20)
    by (unfold parseInt_or; by destruct Hl as [-> | ->]).
  unfold get_activities. cbn [session_userId user__id query_page query_limit].
  rewrite Hp', Hl'. reflexivity.
Qed.

Lemma activities_defaults_witness :
  get_activities (page_request (Some "first") None) busy_world
  = get_activities (page_request (Some "1") (Some "20")) busy_world.
Proof.
  apply (activities_defaults (page_request (Some "first") None) busy_world);
    by left.
Defined.

(** X19. '/api/recent-activities' is the first page of '/api/activities' for
    a limit of ten: for the same identity, a request with [page=1] and
    [limit=10] is answered with the same status and the same activities. *)
Theorem recent_is_first_page_of_ten req w :
  parseInt (query_page req) = Finite 1 →
  parseInt (query_limit req) = Finite 10 →
  res_status <$> answer (get_activities req w)
  = res_status <$> answer (get_recent_activities req w)
  ∧ body_activities <$> answer (get_activities req w)
    = body_activities <$> answer (get_recent_activities req w).
Proof.
  intros Hp Hl.
  assert (Hp' : parseInt_or (query_page req) 1 = Finite 1)
    by (unfold parseInt_or; by rewrite Hp).
  assert (Hl' : parseInt_or (query_limit req) 20 = Finite 10)
    by (unfold parseInt_or; by rewrite Hl).
  unfold get_activities, get_recent_activities, try_catch. cbv zeta.
  rewrite Hp', Hl'.
  destruct (truthy (or_value (session_userId req) (user__id req))); [|done].
  cbn [negb]. unfold bind, find_query, countDocuments.
  by destruct (cast_filter _).
Qed.

Lemma recent_is_first_page_of_ten_witness :
  body_activities <$> answer (get_activities
                                (page_request (Some "1") (Some "10"))
                                busy_world)
  = body_activities <$> answer (get_recent_activities
                                  (page_request (Some "1") (Some "10"))
                                  busy_world).
Proof.
  apply (recent_is_first_page_of_ten (page_request (Some "1") (Some "10"))
           busy_world); reflexivity.
Defined.

(** X20. The two routes only read: whatever the request, each of them
    answers (no exception leaves it) and the collection, the rooms, the
    packets sent and the id generator are as before. *)
Theorem routes_only_read req w :
  only_reads w (get_recent_activities req w)
  ∧ only_reads w (get_activities req w).
Proof.
  unfold only_reads. split.
  - unfold get_recent_activities, try_catch, answer. cbv zeta.
    destruct (truthy (or_value (session_userId req) (user__id req))); [|done].
    cbn [negb]. unfold bind, find_query. by destruct (cast_filter _).
  - unfold get_activities, try_catch, answer, bind, find_query, countDocuments.
    cbv zeta.
    destruct (truthy (or_value (session_userId req) (user__id req))); [|done].
    cbn [negb]. destruct (cast_filter _); [done|].
    by destruct (_ <? 0)%Z.
Qed.

(** ** Events and requests whose user id is no ObjectId

    A string of twelve characters is left aside in the two statements that
    follow: drivers older than the one modelled read it as the twelve bytes
    of an id. *)

(** X23. A 'started' or 'completed' event that names its user by a string
    that is no ObjectId stores nothing and sends nothing, though both
    required fields are present: the handler returns normally, the
    collection, the rooms and the packets sent are as before, nothing is
    written to the store, and the failure is written to the error
    console. *)
Theorem uncastable_event_dropped socket d w u m :
  valid_event d u m → castObjectId u = None → String.length u ≠ 12 →
  ((on_meeting_started socket d w).1 = Return tt
   ∧ collection (on_meeting_started socket d w).2 = collection w
   ∧ queries (on_meeting_started socket d w).2 = queries w
   ∧ rooms (on_meeting_started socket d w).2 = rooms w
   ∧ emitted (on_meeting_started socket d w).2 = emitted w
   ∧ console (on_meeting_started socket d w).2
     = (console w
        ++ [console_error "Error creating activity:";
            console_error "Error handling meeting-started:"])%list)
  ∧ ((on_meeting_completed socket d w).1 = Return tt
     ∧ collection (on_meeting_completed socket d w).2 = collection w
     ∧ queries (on_meeting_completed socket d w).2 = queries w
     ∧ rooms (on_meeting_completed socket d w).2 = rooms w
     ∧ emitted (on_meeting_completed socket d w).2 = emitted w
     ∧ console (on_meeting_completed socket d w).2
       = (console w
          ++ [console_log "Processing meeting completion:";
              console_error "Error handling meeting-completed:"])%list).
Proof.
  intros Hv Hcast _.
  rewrite (on_meeting_started_uncastable _ _ _ _ _ Hv Hcast).
  rewrite (on_meeting_completed_uncastable _ _ _ _ _ Hv Hcast).
  destruct (or_new_Date_frame (data_startTime d) w)
    as (Hcol & _ & _ & Hq & Hr & He & Hl).
  split; [|done]. cbn. by rewrite Hcol, Hq, Hr, He, Hl.
Qed.

Lemma uncastable_event_dropped_witness :
  collection (on_meeting_started "s1" scenario_started open_world).2
  = collection open_world
  ∧ collection (on_meeting_completed "s1" scenario_started open_world).2
    = collection open_world.
Proof.
  destruct (uncastable_event_dropped "s1" scenario_started open_world "u1" "m1")
    as [(_ & H1 & _) (_ & H2 & _)].
  - by repeat split.
  - reflexivity.
  - cbn. lia.
  - by split.
Defined.

(** X24. A request whose identity is a string that is no ObjectId is
    answered 500 'Failed to fetch activities' by both routes: the filter
    cannot be cast, the error is written to the error console, and nothing
    else changes. *)
Theorem routes_fail_on_uncastable_identity req w u :
  authenticated req u → castObjectId u = None → String.length u ≠ 12 →
  get_recent_activities req w
  = (Return failed_to_fetch,
     set_console
       (console w ++ [console_error "Error fetching recent activities:"]) w)
  ∧ get_activities req w
    = (Return failed_to_fetch,
       set_console
         (console w ++ [console_error "Error fetching activities:"]) w).
Proof.
  intros Ha Hcast _. pose proof (authenticated_truthy _ _ Ha) as Ht.
  destruct Ha as [Hu _].
  unfold get_recent_activities, get_activities, try_catch. cbv zeta.
  rewrite Ht, Hu. cbn [negb]. unfold bind, find_query, cast_filter.
  cbn [user_filter q_userId]. by rewrite Hcast.
Qed.

Lemma routes_fail_on_uncastable_identity_witness :
  (get_recent_activities
     {| session_userId := Some "u1"; user__id := None;
        query_page := None; query_limit := None |} busy_world).1
  = Return failed_to_fetch.
Proof.
  destruct (routes_fail_on_uncastable_identity
              {| session_userId := Some "u1"; user__id := None;
                 query_page := None; query_limit := None |} busy_world "u1")
    as [H _].
  - by split.
  - reflexivity.
  - cbn. lia.
  - by rewrite H.
Defined.

(** ** The title that the client shows *)

Lemma or_else_empty s : or_else (Some s) "" = s.
Proof.
  unfold or_else. destruct (truthy (Some s)) eqn:E; [done|].
  apply truthy_false in E as [E | E]; congruence.
Qed.

Lemma displayName_unnamed v :
  v_meetingName v = "" ∨ v_meetingName v = "Unnamed Meeting" →
  displayName v = "Meeting " ++ substring_0 8 (v_meetingId v).
Proof.
  intros H. unfold displayName. rewrite or_else_empty.
  by destruct H as [-> | ->].
Qed.

Lemma displayName_named v :
  v_meetingName v ≠ "" → v_meetingName v ≠ "Unnamed Meeting" →
  displayName v = v_meetingName v.
Proof.
  intros H1 H2. unfold displayName.
  apply truthy_Some in H1 as ->. by apply String.eqb_neq in H2 as ->.
Qed.

(** [substring(0, n)] counts UTF-16 units, not bytes: of an id that starts
    with seven letters of two bytes each, eight characters are kept. *)
Lemma substring_0_counts_units :
  substring_0 8 "éééééééa-2024" = "éééééééa"
  ∧ String.length (substring_0 8 "éééééééa-2024") = 15
  ∧ substring_0 8 "4f9a0c3e-77b1" = "4f9a0c3e".
Proof. by repeat split. Qed.

(** X21. The title of an item is the name of the meeting when that name is
    not empty and is not the placeholder 'Unnamed Meeting'; otherwise it is
    'Meeting ' followed by the first eight characters of the meeting id.  So
    the title is never empty and never the placeholder. *)
Theorem displayName_never_placeholder v :
  displayName v ≠ "" ∧ displayName v ≠ "Unnamed Meeting"
  ∧ (v_meetingName v ≠ "" → v_meetingName v ≠ "Unnamed Meeting" →
     displayName v = v_meetingName v)
  ∧ (v_meetingName v = "" ∨ v_meetingName v = "Unnamed Meeting" →
     displayName v = "Meeting " ++ substring_0 8 (v_meetingId v)).
Proof.
  split; [|split; [|split]].
  - destruct (decide (v_meetingName v = "")) as [E | E].
    + by rewrite displayName_unnamed by (by left).
    + destruct (decide (v_meetingName v = "Unnamed Meeting")) as [E' | E'].
      * by rewrite displayName_unnamed by (by right).
      * by rewrite displayName_named.
  - destruct (decide (v_meetingName v = "")) as [E | E].
    + by rewrite displayName_unnamed by (by left).
    + destruct (decide (v_meetingName v = "Unnamed Meeting")) as [E' | E'].
      * by rewrite displayName_unnamed by (by right).
      * by rewrite displayName_named.
  - apply displayName_named.
  - apply displayName_unnamed.
Qed.

(** X22. A meeting that starts without a name is stored under the name
    'Unnamed Meeting', the packet of the start carries that name to every
    other socket in the room of the user, and the client turns it into the
    title 'Meeting ' followed by the first eight characters of the meeting
    id: the placeholder of the server is the one the client looks for. *)
Theorem unnamed_meeting_title socket d w u m user :
  valid_event d u m → castObjectId u = Some user →
  missing (data_meetingName d) →
  ∃ a,
    collection (on_meeting_started socket d w).2 = (collection w ++ [a])%list
    ∧ meetingName a = "Unnamed Meeting"
    ∧ ∀ c, c ∈ channelsFor w u → c ≠ socket →
        ∃ p, (c, p) ∈ emitted (on_meeting_started socket d w).2
             ∧ pk_type p = "meeting-started"
             ∧ v_id (pk_activity p) = _id a
             ∧ v_meetingId (pk_activity p) = m
             ∧ v_meetingName (pk_activity p) = "Unnamed Meeting"
             ∧ displayName (pk_activity p) = "Meeting " ++ substring_0 8 m.
Proof.
  intros Hv Hcast Hn. rewrite (on_meeting_started_run _ _ _ _ _ _ Hv Hcast).
  rewrite socket_to_emit_run. cbn [snd].
  destruct (or_new_Date_frame (data_startTime d) w)
    as (Hcol & _ & _ & _ & Hr & _).
  set (w1 := (or_new_Date (data_startTime d) w).2) in *.
  set (a := inserted user m (data_meetingName d) ty_created
              (started_extra (default (now w) (data_startTime d))) w1).
  assert (Ha : meetingName a = "Unnamed Meeting")
    by (cbn -[or_else]; by apply or_else_missing).
  exists a. split; [cbn -[inserted]; by rewrite Hcol|]. split; [done|].
  intros c Hc Hne. exists (started_packet (populate_doc w a)). split.
  - cbn [emitted set_emitted]. apply elem_of_app. right.
    rewrite (deliveries_rooms _ _ _ w) by done. by apply elem_of_deliveries.
  - split; [done|]. split; [done|]. split; [done|]. split; [done|].
    by rewrite displayName_unnamed by (by right).
Qed.

Lemma unnamed_meeting_title_witness :
  ∃ p,
    ("s2", p) ∈ emitted (on_meeting_started "s1" unnamed_started two_tabs).2
    ∧ v_meetingName (pk_activity p) = "Unnamed Meeting"
    ∧ displayName (pk_activity p) = "Meeting 4f9a0c3e".
Proof.
  destruct (unnamed_meeting_title "s1" unnamed_started two_tabs
              ada_id "4f9a0c3e-77b1" (oid ada_id)) as (a & _ & _ & Hsend).
  - by repeat split.
  - exact ada_id_cast.
  - by left.
  - destruct (Hsend "s2") as (p & Hin & _ & _ & _ & Hname & Htitle).
    + by_compute.
    + done.
    + exists p. by repeat split.
Defined.
